(** * zfs_rotational_check: a shallow embedding of [zfs_rotational_check.py]

    The script decides whether every disk behind a ZFS pool is a solid-state
    device.  It runs [zpool status -P POOL], extracts the [/dev/...] lines
    with regular expressions, maps every device to its base disk
    ([os.path.realpath], then the final digits are removed with [re.sub])
    and reads [/sys/block/<name>/queue/rotational] for every base disk.

    Layout of this file:
    - [Str]: Python [str] values as lists of code points, with the string
      methods the script calls ([split], [join], [strip], [basename]);
    - [Re]: the fragment of Python's [re] the script uses, as a backtracking
      matcher with [sub] and [findall];
    - [Posix]: [os.path.normpath] and [os.path.abspath], used to build
      concrete machines;
    - [Zfs]: the functions of the script over an explicit environment (the
      files, [realpath], the [zpool] process, the iteration order of a
      Python [set]);
    - [Machine]: concrete machines on which the script is evaluated;
    - the vocabulary of the statements and [Cli], the body of [main];
    - the lemmas on the matcher and on normalization, and the properties
      of the script. *)

From Stdlib Require Import String Ascii DecimalString.
From Stdlib Require Import List NArith ZArith Bool Lia Arith.
Import ListNotations.

Set Implicit Arguments.

(** ** Python strings *)

Module Str.

(** A Python [str] is a sequence of Unicode code points. *)
Abbreviation char := N.
Abbreviation str := (list N).

Definition of_ascii (a : ascii) : char := N_of_ascii a.

(** [lit "..."] is the [str] of an ASCII literal of the source. *)
Definition lit (s : string) : str := List.map of_ascii (list_ascii_of_string s).

Definition TAB : char := 9%N.
Definition NL : char := 10%N.
Definition SPACE : char := 32%N.
Definition SLASH : char := 47%N.

Fixpoint eqb (a b : str) : bool :=
  match a, b with
  | [], [] => true
  | x :: a', y :: b' => N.eqb x y && eqb a' b'
  | _, _ => false
  end.

(** [str.isspace] for a single code point (CPython's
    [_PyUnicode_IsWhitespace]). *)
Definition isspace (c : char) : bool :=
  ((9 <=? c) && (c <=? 13) || (28 <=? c) && (c <=? 32)
   || (c =? 133) || (c =? 160) || (c =? 5760)
   || (8192 <=? c) && (c <=? 8202)
   || (c =? 8232) || (c =? 8233) || (c =? 8239) || (c =? 8287)
   || (c =? 12288))%N.

Fixpoint dropwhile (f : char -> bool) (s : str) : str :=
  match s with
  | [] => []
  | c :: t => if f c then dropwhile f t else s
  end.

Definition lstrip (s : str) : str := dropwhile isspace s.
Definition rstrip (s : str) : str := rev (dropwhile isspace (rev s)).

(** [s.strip()] *)
Definition strip (s : str) : str := lstrip (rstrip s).

(** [s.split(sep)] for a one-character separator: always at least one
    field. *)
Fixpoint split (sep : char) (s : str) : list str :=
  match s with
  | [] => [[]]
  | c :: t =>
      if N.eqb c sep then [] :: split sep t
      else match split sep t with
           | l :: ls => (c :: l) :: ls
           | [] => [[c]]
           end
  end.

(** [sep.join(ls)] for a one-character separator. *)
Fixpoint join (sep : char) (ls : list str) : str :=
  match ls with
  | [] => []
  | [l] => l
  | l :: ls' => l ++ sep :: join sep ls'
  end.

(** [s.startswith(p)] *)
Fixpoint startswith (p s : str) : bool :=
  match p, s with
  | [], _ => true
  | x :: p', y :: s' => N.eqb x y && startswith p' s'
  | _ :: _, [] => false
  end.

(** [s[:1]], the result of reading at most one character. *)
Definition take1 (s : str) : str := firstn 1 s.

(** The part of [p] after its last ['/'] ([p[p.rfind('/') + 1:]]); [acc]
    is the component read so far. *)
Fixpoint after_last_slash (acc p : str) : str :=
  match p with
  | [] => acc
  | c :: t => if N.eqb c SLASH then after_last_slash [] t
              else after_last_slash (acc ++ [c]) t
  end.

(** [os.path.basename] *)
Definition basename (p : str) : str := after_last_slash [] p.

End Str.

Import Str.

(** ** The regular expressions of the script *)

Module Re.

(** The constructs that occur in the patterns of the script.  [r+] is
    written [RCat r (RStar r)].  Groups carry their number. *)
Inductive regex :=
| REps
| RChr (c : char)
| RSet (f : char -> bool)
| RCat (a b : regex)
| RAlt (a b : regex)
| RStar (a : regex)
| RGroup (i : nat) (a : regex)
| RBol
| REol.

(** A position in the subject: the text before it, reversed, and the text
    after it. *)
Record pos := Pos { before : str; rest : str }.

(** The groups closed so far, the most recent first. *)
Definition caps := list (nat * str).

Definition kont := pos -> caps -> option (pos * caps).
Definition matcher := pos -> caps -> kont -> option (pos * caps).

(** [^]: the start of the subject, and with [re.MULTILINE] also after every
    newline. *)
Definition at_bol (ml : bool) (p : pos) : bool :=
  match before p with
  | [] => true
  | c :: _ => ml && N.eqb c NL
  end.

(** [$]: the end of the subject or just before a newline that ends it, and
    with [re.MULTILINE] before every newline. *)
Definition at_eol (ml : bool) (p : pos) : bool :=
  match rest p with
  | [] => true
  | c :: t => N.eqb c NL && (ml || match t with [] => true | _ => false end)
  end.

(** What was read between two positions. *)
Definition consumed (p p' : pos) : str :=
  firstn (length (rest p) - length (rest p')) (rest p).

(** Greedy repetition: one more iteration that reads something, or else the
    continuation. *)
Fixpoint star_loop (body : matcher) (n : nat) (p : pos) (cs : caps)
    (k : kont) : option (pos * caps) :=
  match n with
  | O => k p cs
  | S n' =>
      match body p cs (fun p' cs' =>
                         if length (rest p') <? length (rest p)
                         then star_loop body n' p' cs' k else None) with
      | Some x => Some x
      | None => k p cs
      end
  end.

(** The backtracking matcher: the first success in Python's priority order
    (left alternative first, longest repetition first). *)
Fixpoint rmatch (ml : bool) (r : regex) : matcher :=
  match r with
  | REps => fun p cs k => k p cs
  | RChr c => fun p cs k =>
      match rest p with
      | x :: t => if N.eqb x c then k (Pos (x :: before p) t) cs else None
      | [] => None
      end
  | RSet f => fun p cs k =>
      match rest p with
      | x :: t => if f x then k (Pos (x :: before p) t) cs else None
      | [] => None
      end
  | RCat a b => fun p cs k =>
      rmatch ml a p cs (fun p' cs' => rmatch ml b p' cs' k)
  | RAlt a b => fun p cs k =>
      match rmatch ml a p cs k with
      | Some x => Some x
      | None => rmatch ml b p cs k
      end
  | RStar a => fun p cs k =>
      star_loop (rmatch ml a) (length (rest p)) p cs k
  | RGroup i a => fun p cs k =>
      rmatch ml a p cs (fun p' cs' => k p' ((i, consumed p p') :: cs'))
  | RBol => fun p cs k => if at_bol ml p then k p cs else None
  | REol => fun p cs k => if at_eol ml p then k p cs else None
  end.

Definition accept : kont := fun p cs => Some (p, cs).

(** [pattern.match] at one position. *)
Definition match_at (ml : bool) (r : regex) (p : pos) : option (pos * caps) :=
  rmatch ml r p [] accept.

(** The text of group [i] in a match. *)
Fixpoint group (i : nat) (cs : caps) : option str :=
  match cs with
  | [] => None
  | (j, s) :: cs' => if Nat.eqb i j then Some s else group i cs'
  end.

Section Scan.

Variable ml : bool.
Variable r : regex.

(** [re.sub(r, repl, s)]: scan from left to right; at a position where the
    pattern matches, emit [repl] and resume where the match ended ([skip]
    counts the characters of the match still to pass over); elsewhere copy
    the character.  An empty match emits [repl] and copies the character. *)
Fixpoint sub_from (repl : str) (bf s : str) (skip : nat) : str :=
  match skip with
  | S k =>
      match s with
      | [] => []
      | c :: t => sub_from repl (c :: bf) t k
      end
  | O =>
      match match_at ml r (Pos bf s) with
      | Some (p', _) =>
          let n := length s - length (rest p') in
          repl ++ match s with
                  | [] => []
                  | c :: t =>
                      (match n with O => [c] | S _ => [] end)
                        ++ sub_from repl (c :: bf) t (n - 1)
                  end
      | None =>
          match s with
          | [] => []
          | c :: t => c :: sub_from repl (c :: bf) t 0
          end
      end
  end.

(** [pattern.findall(s)], as the list of the groups of every match. *)
Fixpoint findall_from (bf s : str) (skip : nat) : list caps :=
  match skip with
  | S k =>
      match s with
      | [] => []
      | c :: t => findall_from (c :: bf) t k
      end
  | O =>
      match match_at ml r (Pos bf s) with
      | Some (p', cs) =>
          let n := length s - length (rest p') in
          cs :: match s with
                | [] => []
                | c :: t => findall_from (c :: bf) t (n - 1)
                end
      | None =>
          match s with
          | [] => []
          | c :: t => findall_from (c :: bf) t 0
          end
      end
  end.

End Scan.

Definition sub (ml : bool) (r : regex) (repl s : str) : str :=
  sub_from ml r repl [] s 0.

Definition findall (ml : bool) (r : regex) (s : str) : list caps :=
  findall_from ml r [] s 0.

(** A literal string. *)
Fixpoint rlit (s : str) : regex :=
  match s with
  | [] => REps
  | c :: t => RCat (RChr c) (rlit t)
  end.

(** [r+] *)
Definition rplus (r : regex) : regex := RCat r (RStar r).

(** [a|b|...] *)
Fixpoint ralts (rs : list regex) : regex :=
  match rs with
  | [] => RSet (fun _ => false)
  | [r] => r
  | r :: rs' => RAlt r (ralts rs')
  end.

End Re.

Import Re.

(** ** [os.path] on a file system without symbolic links *)

Module Posix.

(** The loop of [posixpath.normpath]; [acc] is [new_comps], the last
    component first. *)
Definition norm_step (rooted : bool) (acc : list str) (comp : str) : list str :=
  if Str.eqb comp [] || Str.eqb comp (lit ".") then acc
  else if negb (Str.eqb comp (lit ".."))
          || (negb rooted && match acc with [] => true | _ => false end)
          || match acc with c :: _ => Str.eqb c (lit "..") | [] => false end
       then comp :: acc
       else match acc with _ :: acc' => acc' | [] => acc end.

(** [posixpath.normpath] *)
Definition normpath (path : str) : str :=
  match path with
  | [] => lit "."
  | _ =>
      let initial_slashes :=
        if startswith (lit "/") path
        then if startswith (lit "//") path && negb (startswith (lit "///") path)
             then 2 else 1
        else 0 in
      let comps := split SLASH path in
      let new_comps :=
        rev (fold_left (norm_step (negb (Nat.eqb initial_slashes 0))) comps []) in
      let p := repeat SLASH initial_slashes ++ join SLASH new_comps in
      match p with [] => lit "." | _ => p end
  end.

(** [posixpath.join(a, b)] *)
Definition path_join (a b : str) : str :=
  if startswith (lit "/") b then b
  else match rev a with
       | [] => b
       | c :: _ => if N.eqb c SLASH then a ++ b else a ++ SLASH :: b
       end.

(** [posixpath.abspath], which is what [os.path.realpath] computes when no
    component of the path is a symbolic link. *)
Definition abspath (cwd path : str) : str :=
  normpath (if startswith (lit "/") path then path else path_join cwd path).

End Posix.

(** ** The script *)

Module Zfs.

(** The values the script may be handed as [pool]. *)
Inductive pyval :=
| PyNone
| PyBool (b : bool)
| PyInt (z : Z)
| PyStr (s : str)
| PyBytes (b : list N).

(** [isinstance(v, str)] *)
Definition isinstance_str (v : pyval) : bool :=
  match v with PyStr _ => true | _ => false end.

(** [str(type(v))] *)
Definition type_repr (v : pyval) : str :=
  match v with
  | PyNone => lit "<class 'NoneType'>"
  | PyBool _ => lit "<class 'bool'>"
  | PyInt _ => lit "<class 'int'>"
  | PyStr _ => lit "<class 'str'>"
  | PyBytes _ => lit "<class 'bytes'>"
  end.

(** The exceptions of the script, one constructor per [raise] (the script
    raises plain [Exception]s that differ in their message), with the kind
    the specification gives them. *)
Inductive error :=
| CannotGetBlockdevices (ty : str)        (* line 71, InvalidArgument *)
| CannotCheckPool (ty : str)              (* line 148, InvalidArgument *)
| DidNotReturnInTime (timeout : Z) (pool : str)   (* line 127, Timeout *)
| DidNotReturnSuccessfully (pool : str)   (* line 132, PoolQueryFailed *)
| UnicodeDecodeError                      (* line 135, from [decode] *)
| CouldNotFindFile (file : str)           (* line 32, DeviceMetadataNotFound *)
| UnknownValue (file : str).              (* line 41, UnrecognizedDeviceFlag *)

(** The outcome of a call: a value, an exception, or [Deep] when the call
    nests deeper than the frames it was given (CPython stops such a call
    with [RecursionError] at its recursion limit). *)
Inductive outcome (A : Type) :=
| Ret (a : A)
| Raise (e : error)
| Deep.

Arguments Ret {A} a.
Arguments Raise {A} e.
Arguments Deep {A}.

Definition bind {A B} (m : outcome A) (f : A -> outcome B) : outcome B :=
  match m with
  | Ret a => f a
  | Raise e => Raise e
  | Deep => Deep
  end.

Notation "x <- m ;; f" := (bind m (fun x => f))
  (at level 61, m at next level, right associativity).

(** A list comprehension [[f(d) for d in l]]: the calls are made in order
    and the first exception ends it. *)
Fixpoint comprehension {A B} (f : A -> outcome B) (l : list A) : outcome (list B) :=
  match l with
  | [] => Ret []
  | a :: l' => b <- f a ;; bs <- comprehension f l' ;; Ret (b :: bs)
  end.

(** How [subprocess.Popen(...).communicate] ends: [TimeoutExpired], or the
    process exits with a return code and its standard output ([None] when
    the bytes are not valid UTF-8, so that [decode] raises). *)
Inductive proc_result :=
| TimeoutExpired
| Exited (returncode : Z) (stdout : option str).

(** The iteration order of a Python [set] of strings: [list(set(l))] has
    the elements of [l], each once, in an order the interpreter chooses. *)
Record PySet := {
  list_set : list str -> list str;
  list_set_NoDup : forall l, NoDup (list_set l);
  list_set_In : forall l x, In x (list_set l) <-> In x l
}.

(** What the script reads from the machine it runs on. *)
Record Env := {
  (* the text of a file, [None] when [os.path.exists] is false *)
  file : str -> option str;
  (* [os.path.realpath] *)
  realpath : str -> str;
  (* the process started for an argument vector, with the timeout given to
     [communicate] ([None] for no timeout) *)
  popen : list str -> option Z -> proc_result;
  pyset : PySet
}.

(** [a-zA-Z0-9/_-] *)
Definition disk_char (c : char) : bool :=
  ((97 <=? c) && (c <=? 122) || (65 <=? c) && (c <=? 90)
   || (48 <=? c) && (c <=? 57) || (c =? 47) || (c =? 95) || (c =? 45))%N.

(** [0-9] *)
Definition digit (c : char) : bool := ((48 <=? c) && (c <=? 57))%N.

Definition states : list str :=
  [lit "DEGRADED"; lit "FAULTED"; lit "OFFLINE"; lit "ONLINE"; lit "REMOVED";
   lit "UNAVAIL"].

(** [disk_re] of line 87: the literal [/dev/], then any number of
    characters of the class, as group 1. *)
Definition disk_re : regex := RGroup 1 (RCat (rlit (lit "/dev/")) (RStar (RSet disk_char))).

(** [states_re] of lines 88 to 90: the alternation of the six states, as
    group 2. *)
Definition states_re : regex := RGroup 2 (ralts (List.map rlit states)).

(** [num_re] of line 91: a digit, then any number of digits, as group
    [i]. *)
Definition num_re (i : nat) : regex := RGroup i (RCat (RSet digit) (RStar (RSet digit))).

(** [line_re] of line 92: the five groups between [^] and [$], one space
    apart. *)
Definition line_re : regex :=
  RCat RBol
    (RCat disk_re
       (RCat (RChr SPACE)
          (RCat states_re
             (RCat (RChr SPACE)
                (RCat (num_re 3)
                   (RCat (RChr SPACE)
                      (RCat (num_re 4)
                         (RCat (RChr SPACE)
                            (RCat (num_re 5) REol))))))))).

(** [tup[0]]: the first group of a match ([findall] gives the empty string
    for a group that took no part in the match). *)
Definition tup0 (cs : caps) : str :=
  match group 1 cs with Some d => d | None => [] end.

(** Lines 77 to 84 of [block_devices_for_pool]. *)
Definition normalize_status (status_str : str) : str :=
  let status_str := sub false (rplus (RChr TAB)) (lit " ") status_str in
  let status_str := sub false (rplus (RChr SPACE)) (lit " ") status_str in
  join NL (List.map strip (split NL status_str)).

(** Lines 86 to 97 of [block_devices_for_pool], on the normalized text. *)
Definition extract_devices (status_str : str) : list str :=
  List.map tup0 (findall true line_re status_str).

(** Lines 77 to 98: the device list of a status text. *)
Definition devices_of_status (status_str : str) : list str :=
  extract_devices (normalize_status status_str).

(** The pattern ['[0-9]+$'] of line 57. *)
Definition number_eol : regex := RCat (rplus (RSet digit)) REol.

Section Script.

Variable E : Env.

(** [base_disk_for_block_device] *)
Definition base_disk_for_block_device (partition : str) : str :=
  let partition := realpath E partition in
  sub false number_eol [] partition.

(** The f-string of line 23. *)
Definition rotational_file (block_device : str) : str :=
  lit "/sys/block/" ++ basename block_device ++ lit "/queue/rotational".

(** [is_rotational], given [fuel] frames. *)
Fixpoint is_rotational (fuel : nat) (block_device : str) : outcome bool :=
  match fuel with
  | O => Deep
  | S fuel' =>
      match file E (rotational_file block_device) with
      | None =>
          let disk := base_disk_for_block_device block_device in
          if negb (Str.eqb disk block_device) then is_rotational fuel' disk
          else Raise (CouldNotFindFile (rotational_file block_device))
      | Some text =>
          let content := take1 text in
          if Str.eqb content (lit "1") then Ret true
          else if Str.eqb content (lit "0") then Ret false
          else Raise (UnknownValue (rotational_file block_device))
      end
  end.

(** [zpool_status] *)
Definition zpool_status (pool : pyval) (timeout : Z) : outcome (option str) :=
  match pool with
  | PyStr name =>
      let cmd_arr := [lit "zpool"; lit "status"; lit "-P"; name] in
      match popen E cmd_arr (if (0 <? timeout)%Z then Some timeout else None) with
      | TimeoutExpired => Raise (DidNotReturnInTime timeout name)
      | Exited returncode stdout =>
          if negb (returncode =? 0)%Z then Raise (DidNotReturnSuccessfully name)
          else match stdout with
               | Some text => Ret (Some text)
               | None => Raise UnicodeDecodeError
               end
      end
  | _ => Ret None
  end.

(** [block_devices_for_pool] *)
Definition block_devices_for_pool (pool : pyval) : outcome (list str) :=
  if negb (isinstance_str pool)
  then Raise (CannotGetBlockdevices (type_repr pool))
  else
    status_str <- zpool_status pool (-1) ;;
    match status_str with
    | None => Ret []
    | Some status_str => Ret (devices_of_status status_str)
    end.

(** Lines 153 to 161 of [zpool_is_pure_solid_state], on the device list. *)
Definition all_solid_state (fuel : nat) (disks : list str) : outcome bool :=
  let disks := List.map base_disk_for_block_device disks in
  let disks := list_set (pyset E) disks in
  rotationals <- comprehension (is_rotational fuel) disks ;;
  Ret (negb (existsb (Bool.eqb true) rotationals)).

(** [zpool_is_pure_solid_state] *)
Definition zpool_is_pure_solid_state (fuel : nat) (pool : pyval) : outcome bool :=
  if negb (isinstance_str pool)
  then Raise (CannotCheckPool (type_repr pool))
  else
    disks <- block_devices_for_pool pool ;;
    all_solid_state fuel disks.

End Script.

End Zfs.

Import Zfs.

(** ** Concrete machines *)

Module Machine.

Fixpoint lookup {A} (k : str) (t : list (str * A)) : option A :=
  match t with
  | [] => None
  | (k', v) :: t' => if Str.eqb k k' then Some v else lookup k t'
  end.

Definition str_eq_dec : forall a b : str, {a = b} + {a <> b} :=
  list_eq_dec N.eq_dec.

(** A [set] that iterates in the order of first insertion. *)
Definition insertion_order : PySet :=
  {| list_set := nodup str_eq_dec;
     list_set_NoDup := fun l => NoDup_nodup str_eq_dec l;
     list_set_In := fun l x => nodup_In str_eq_dec l x |}.

(** A [set] that iterates in the opposite order. *)
Definition reverse_order : PySet :=
  {| list_set := fun l => rev (nodup str_eq_dec l);
     list_set_NoDup := fun l => NoDup_rev (NoDup_nodup str_eq_dec l);
     list_set_In := fun l x =>
       iff_trans (iff_sym (in_rev (nodup str_eq_dec l) x))
                 (nodup_In str_eq_dec l x) |}.

(** A machine given by its files, its symbolic links (a listed path
    resolves to its target, any other path to its normal form from the
    working directory [/]) and the status text of its imported pools
    ([zpool] exits with 1 for any other pool).  The links are looked up by
    the spelling listed, so such a machine is meant for paths written in
    normal form with one leading ['/']. *)
Definition machine (order : PySet) (files links pools : list (str * str)) : Env :=
  {| file := fun p => lookup p files;
     realpath := fun p =>
       match lookup p links with
       | Some target => target
       | None => Posix.abspath (lit "/") p
       end;
     popen := fun argv _ =>
       match argv with
       | [_; _; _; name] =>
           match lookup name pools with
           | Some text => Exited 0 (Some text)
           | None => Exited 1 (Some [])
           end
       | _ => Exited 1 (Some [])
       end;
     pyset := order |}.

Definition sys_block : list (str * str) :=
  [(lit "/sys/block/sda/queue/rotational", lit "0" ++ [NL]);
   (lit "/sys/block/sdb/queue/rotational", lit "1" ++ [NL]);
   (lit "/sys/block/sdc/queue/rotational", lit "0" ++ [NL]);
   (lit "/sys/block/sdx/queue/rotational", []);
   (lit "/sys/block/sdy/queue/rotational", lit "2" ++ [NL])].

Definition by_id : list (str * str) :=
  [(lit "/dev/disk/by-id/ata-A-part1", lit "/dev/sda1");
   (lit "/dev/disk/by-id/ata-C-part1", lit "/dev/sdc1")].

(** The output of [zpool status -P] for a mirror of two devices. *)
Definition status_of (pool dev1 dev2 : str) : str :=
  join NL
    [lit "  pool: " ++ pool;
     lit " state: ONLINE";
     lit "config:";
     [];
     TAB :: lit "NAME                             STATE     READ WRITE CKSUM";
     TAB :: pool ++ lit "                             ONLINE       0     0     0";
     TAB :: lit "  mirror-0                       ONLINE       0     0     0";
     TAB :: lit "    " ++ dev1 ++ lit "  ONLINE       0     0     0";
     TAB :: lit "    " ++ dev2 ++ lit "  ONLINE       0     0     0";
     [];
     lit "errors: No known data errors";
     []].

Definition pools : list (str * str) :=
  [(lit "fast", status_of (lit "fast") (lit "/dev/disk/by-id/ata-A-part1")
                  (lit "/dev/disk/by-id/ata-C-part1"));
   (lit "mixed", status_of (lit "mixed") (lit "/dev/sda1") (lit "/dev/sdb1"));
   (lit "twice", status_of (lit "twice") (lit "/dev/sda1") (lit "/dev/sda2"));
   (lit "empty", lit "no pools available" ++ [NL])].

Definition demo : Env := machine insertion_order sys_block by_id pools.

(** A machine with two dangling links that point at each other's
    partitions. *)
Definition looped : Env :=
  machine insertion_order sys_block
    [(lit "/dev/a", lit "/dev/b1"); (lit "/dev/b", lit "/dev/a1")] pools.

End Machine.

Import Machine.

(** ** Vocabulary of the statements *)

(** The distinct base disks behind a device list, in the order the
    classifier visits them. *)
Definition base_disks (E : Env) (devices : list str) : list str :=
  list_set (pyset E) (List.map (base_disk_for_block_device E) devices).

(** The position reached from [(bf, s)] by reading the longest run of
    characters of [f]. *)
Fixpoint skip_set (f : char -> bool) (bf s : str) : pos :=
  match s with
  | c :: t => if f c then skip_set f (c :: bf) t else Pos bf s
  | [] => Pos bf []
  end.

(** The continuation tried after every run of characters of [f], the
    longest run first. *)
Fixpoint try_down (f : char -> bool) (bf s : str) (cs : caps) (k : kont)
    : option (pos * caps) :=
  match s with
  | c :: t =>
      if f c
      then match try_down f (c :: bf) t cs k with
           | Some x => Some x
           | None => k (Pos bf s) cs
           end
      else k (Pos bf s) cs
  | [] => k (Pos bf []) cs
  end.

(** Every maximal run of characters of [f] replaced by [repl]; [inrun]
    tells that the character before belonged to a run. *)
Fixpoint collapse (f : char -> bool) (repl : str) (inrun : bool) (s : str) : str :=
  match s with
  | [] => []
  | x :: t =>
      if f x then (if inrun then [] else repl) ++ collapse f repl true t
      else x :: collapse f repl false t
  end.

(** The end of the subject, or the newline that ends it. *)
Definition ends_subject (s : str) : bool :=
  match s with
  | [] => true
  | c :: t => N.eqb c NL && match t with [] => true | _ => false end
  end.

(** The subject without the digits that end it (or that stand before the
    newline that ends it). *)
Fixpoint strip_number (s : str) : str :=
  match s with
  | [] => []
  | x :: t =>
      if digit x && ends_subject (dropwhile digit t) then dropwhile digit t
      else x :: strip_number t
  end.

(** [no_newline s]: the character [\n] does not occur in [s]. *)
Definition no_newline (s : str) : bool := forallb (fun c => negb (N.eqb c NL)) s.

(** [Matches ml r bf w rest cs cs']: in a subject that reads [rev bf]
    before and [rest] after, the pattern [r] can read [w], turning the
    groups [cs] into [cs']. *)
Inductive Matches (ml : bool) : regex -> str -> str -> str -> caps -> caps -> Prop :=
| MEps bf rest cs : Matches ml REps bf [] rest cs cs
| MChr c bf rest cs : Matches ml (RChr c) bf [c] rest cs cs
| MSet (f : char -> bool) c bf rest cs :
    f c = true -> Matches ml (RSet f) bf [c] rest cs cs
| MCat a b bf w1 w2 rest cs cs1 cs2 :
    Matches ml a bf w1 (w2 ++ rest) cs cs1 ->
    Matches ml b (rev w1 ++ bf) w2 rest cs1 cs2 ->
    Matches ml (RCat a b) bf (w1 ++ w2) rest cs cs2
| MAltL a b bf w rest cs cs1 :
    Matches ml a bf w rest cs cs1 -> Matches ml (RAlt a b) bf w rest cs cs1
| MAltR a b bf w rest cs cs1 :
    Matches ml b bf w rest cs cs1 -> Matches ml (RAlt a b) bf w rest cs cs1
| MStar0 a bf rest cs : Matches ml (RStar a) bf [] rest cs cs
| MStarS a bf w1 w2 rest cs cs1 cs2 :
    w1 <> [] ->
    Matches ml a bf w1 (w2 ++ rest) cs cs1 ->
    Matches ml (RStar a) (rev w1 ++ bf) w2 rest cs1 cs2 ->
    Matches ml (RStar a) bf (w1 ++ w2) rest cs cs2
| MGroup i a bf w rest cs cs1 :
    Matches ml a bf w rest cs cs1 ->
    Matches ml (RGroup i a) bf w rest cs ((i, w) :: cs1)
| MBol bf rest cs :
    at_bol ml (Pos bf rest) = true -> Matches ml RBol bf [] rest cs cs
| MEol bf rest cs :
    at_eol ml (Pos bf rest) = true -> Matches ml REol bf [] rest cs cs.

(** [after_prefix p s]: what follows [p] in [s], when [s] starts with [p]. *)
Fixpoint after_prefix (p s : str) : option str :=
  match p, s with
  | [], _ => Some s
  | x :: p', y :: s' => if N.eqb x y then after_prefix p' s' else None
  | _ :: _, [] => None
  end.

(** A device path: [/dev/] followed by any number of letters, digits,
    ['/'], ['_'] and ['-']. *)
Definition is_device_path (d : str) : bool :=
  match after_prefix (lit "/dev/") d with
  | Some t => forallb disk_char t
  | None => false
  end.

(** One of the six device states. *)
Definition is_state (st : str) : bool := existsb (Str.eqb st) states.

(** A non-empty sequence of decimal digits. *)
Definition is_number (n : str) : bool :=
  match n with
  | [] => false
  | _ => forallb digit n
  end.

(** [device_line line d]: [line] reads [d state n1 n2 n3], the five fields
    one space apart, with [d] a device path. *)
Definition device_line (line d : str) : Prop :=
  exists st n1 n2 n3,
    line = d ++ SPACE :: st ++ SPACE :: n1 ++ SPACE :: n2 ++ SPACE :: n3
    /\ is_device_path d = true /\ is_state st = true
    /\ is_number n1 = true /\ is_number n2 = true /\ is_number n3 = true.

(** [^] and [$] under [re.MULTILINE], by the text before and after. *)
Definition bol (bf : str) : bool := at_bol true (Pos bf []).
Definition eol (s : str) : bool := at_eol true (Pos [] s).

(** The devices [line_re] finds in a text of one line. *)
Definition line_device (line : str) : list str :=
  match match_at true line_re (Pos [] line) with
  | Some (_, cs) => [tup0 cs]
  | None => []
  end.

Definition is_tab (c : char) : bool := N.eqb c TAB.
Definition is_space (c : char) : bool := N.eqb c SPACE.

(** What normalization does to one line: runs of tabs become one space,
    runs of spaces become one space, and the ends are stripped. *)
Definition normalize_line (l : str) : str :=
  strip (collapse is_space [SPACE] false (collapse is_tab [SPACE] false l)).

(** [no_double f prev s]: no two characters of [f] are adjacent in [s],
    [prev] telling whether a character of [f] stands before [s]. *)
Fixpoint no_double (f : char -> bool) (prev : bool) (s : str) : bool :=
  match s with
  | [] => true
  | x :: t => if f x then negb prev && no_double f true t
              else no_double f false t
  end.

(** The characters of a device line. *)
Definition line_char (c : char) : bool := disk_char c || N.eqb c SPACE.

(** A tab or a space. *)
Definition blank (c : char) : bool := is_tab c || is_space c.

(** A field: a non-empty string without whitespace. *)
Definition is_field (w : str) : bool :=
  match w with
  | [] => false
  | _ => forallb (fun c => negb (isspace c)) w
  end.

(** A gap between two fields: a non-empty run of tabs and spaces. *)
Definition is_gap (g : str) : bool :=
  match g with
  | [] => false
  | _ => forallb blank g
  end.

(** [spaced items tail]: a line made of fields, each after its gap, and of
    the text [tail] after the last field. *)
Fixpoint spaced (items : list (str * str)) (tail : str) : str :=
  match items with
  | [] => tail
  | (gap, field) :: items' => gap ++ field ++ spaced items' tail
  end.

(** The same environment under another iteration order of sets. *)
Definition with_pyset (E : Env) (order : PySet) : Env :=
  {| file := file E; realpath := realpath E; popen := popen E;
     pyset := order |}.

(** The first, and the last, character is not whitespace. *)
Definition starts_unspaced (s : str) : Prop :=
  match s with c :: _ => isspace c = false | [] => False end.

Definition ends_unspaced (s : str) : Prop :=
  match rev s with c :: _ => isspace c = false | [] => False end.

(** ** The command line *)

Module Cli.

Definition QUOTE : char := 34%N.

(** [str(n)] for an integer [n]. *)
Definition str_of_Z (z : Z) : str := lit (NilZero.string_of_int (Z.to_int z)).

(** [str(error)] for the exceptions the script raises itself: the message
    given to [Exception].  The text of a [UnicodeDecodeError] depends on the
    bytes that failed to decode and is left open. *)
Definition message (e : error) : option str :=
  match e with
  | CannotGetBlockdevices ty =>
      Some (lit "Cannot get blockdevices for pool of type " ++ QUOTE :: ty ++ [QUOTE])
  | CannotCheckPool ty =>
      Some (lit "Cannot check pool of type " ++ QUOTE :: ty ++ [QUOTE])
  | DidNotReturnInTime timeout pool =>
      Some (lit "zpool status command did not return in time ("
              ++ str_of_Z timeout ++ lit "s) for pool " ++ QUOTE :: pool ++ [QUOTE])
  | DidNotReturnSuccessfully pool =>
      Some (lit "zpool status command did not return successfully for pool "
              ++ QUOTE :: pool ++ QUOTE :: lit ". Does pool exist?")
  | UnicodeDecodeError => None
  | CouldNotFindFile f => Some (lit "Could not find file " ++ f ++ lit "!")
  | UnknownValue f => Some (lit "Unknown value in " ++ f ++ lit "!")
  end.

(** What a run leaves behind: the exit code, what the script prints on the
    standard output and what it prints on the error stream ([None] where
    that text is left open).  The [zpool] process inherits the error stream
    and may write to it as well. *)
Record run := Run { exit_code : Z; stdout : str; stderr : option str }.

(** Lines 180 to 187 of [main], for the pool name [argparse] hands over
    (always a [str]).  [except BaseException] also catches the
    [RecursionError] of a call that nests too deep. *)
Definition main_body (E : Env) (fuel : nat) (pool : str) : run :=
  match zpool_is_pure_solid_state E fuel (PyStr pool) with
  | Ret ssd_only =>
      Run 0 (lit "Pool contains only SSD: "
               ++ (if ssd_only then lit "True" else lit "False") ++ [NL])
          (Some [])
  | Raise error =>
      Run 1 [] (option_map (fun m => m ++ [NL]) (message error))
  | Deep => Run 1 [] None
  end.

End Cli.

Import Cli.

(** ** More vocabulary *)

(** The last character is a decimal digit. *)
Definition ends_in_digit (s : str) : bool := digit (last s 0%N).

(** [resolve E n x]: base-disk resolution applied [n] times to [x]. *)
Fixpoint resolve (E : Env) (n : nat) (x : str) : str :=
  match n with
  | O => x
  | S n' => resolve E n' (base_disk_for_block_device E x)
  end.

(** [falls_back E x]: on [x] the classifier finds no flag file and its
    base disk is another path, so it calls itself. *)
Definition falls_back (E : Env) (x : str) : bool :=
  match file E (rotational_file x) with
  | None => negb (Str.eqb (base_disk_for_block_device E x) x)
  | Some _ => false
  end.

(** No ['/'] occurs in [s]. *)
Definition no_slash (s : str) : bool := forallb (fun c => negb (N.eqb c SLASH)) s.

(** Every element of [l1] occurs in [l2]. *)
Definition all_in (l1 l2 : list str) : bool :=
  forallb (fun d => existsb (Str.eqb d) l2) l1.

(** A machine with a pool on a disk whose flag reads ['2'] and a pool on a
    disk without flag file. *)
Definition odd : Env :=
  machine insertion_order sys_block by_id
    [(lit "bad", status_of (lit "bad") (lit "/dev/sda1") (lit "/dev/sdy1"));
     (lit "gone", status_of (lit "gone") (lit "/dev/sdq1") (lit "/dev/sdb1"))].

(** [chain E n x]: the classifier falls back on [x] and on each of the
    next [n - 1] paths that resolution gives. *)
Definition chain (E : Env) (n : nat) (x : str) : bool :=
  forallb (fun i => falls_back E (resolve E i x)) (seq 0 n).

(** [flag E x]: what the flag file of [x] says, when it exists and starts
    with ['1'] or ['0']. *)
Definition flag (E : Env) (x : str) : option bool :=
  match file E (rotational_file x) with
  | Some text =>
      if Str.eqb (take1 text) (lit "1") then Some true
      else if Str.eqb (take1 text) (lit "0") then Some false
      else None
  | None => None
  end.

(** The line [main] prints for an answer. *)
Definition answer_line (ssd_only : bool) : str :=
  lit "Pool contains only SSD: " ++ (if ssd_only then lit "True" else lit "False")
    ++ [NL].

(** ** Strings: basic facts *)

Lemma str_eqb_eq (a b : str) : Str.eqb a b = true <-> a = b.
Proof.
  revert b; induction a as [|x a IH]; intros [|y b]; simpl;
    try (split; [discriminate | congruence]).
  - split; trivial.
  - rewrite andb_true_iff, N.eqb_eq, IH. split.
    + intros [-> ->]; reflexivity.
    + intros H; injection H; auto.
Qed.

Lemma str_eqb_refl (a : str) : Str.eqb a a = true.
Proof. apply str_eqb_eq; reflexivity. Qed.

Lemma str_eqb_neq (a b : str) : Str.eqb a b = false <-> a <> b.
Proof.
  rewrite <- str_eqb_eq. destruct (Str.eqb a b); split; congruence.
Qed.

(** ** The matcher on the patterns of the script *)

Lemma rmatch_cat ml a b p cs k :
  rmatch ml (RCat a b) p cs k = rmatch ml a p cs (fun p' cs' => rmatch ml b p' cs' k).
Proof. reflexivity. Qed.

Lemma rmatch_star ml a p cs k :
  rmatch ml (RStar a) p cs k = star_loop (rmatch ml a) (length (rest p)) p cs k.
Proof. reflexivity. Qed.

Lemma rmatch_set ml f bf s cs k :
  rmatch ml (RSet f) (Pos bf s) cs k =
    match s with
    | x :: t => if f x then k (Pos (x :: bf) t) cs else None
    | [] => None
    end.
Proof. reflexivity. Qed.

Lemma rmatch_chr ml c : rmatch ml (RChr c) = rmatch ml (RSet (fun x => N.eqb x c)).
Proof. reflexivity. Qed.

Lemma star_set_eq ml f n :
  forall bf s cs k, length s <= n ->
    star_loop (rmatch ml (RSet f)) n (Pos bf s) cs k = try_down f bf s cs k.
Proof.
  induction n as [|n IH]; intros bf s cs k Hn.
  - destruct s; [reflexivity | simpl in Hn; lia].
  - cbn [star_loop]. rewrite rmatch_set.
    destruct s as [|x t]; [reflexivity|].
    cbn [try_down]. destruct (f x); [|reflexivity].
    cbn [rest length].
    rewrite (proj2 (Nat.ltb_lt (length t) (S (length t)))) by lia.
    rewrite IH by (simpl in Hn; lia). reflexivity.
Qed.

Lemma try_down_accept f :
  forall s bf cs, try_down f bf s cs accept = Some (skip_set f bf s, cs).
Proof.
  induction s as [|x t IH]; intros bf cs; simpl; [reflexivity|].
  destruct (f x); [rewrite IH|]; reflexivity.
Qed.

Lemma try_down_det f (k : kont) :
  (forall bf c t cs, f c = true -> k (Pos bf (c :: t)) cs = None) ->
  forall s bf cs, try_down f bf s cs k = k (skip_set f bf s) cs.
Proof.
  intros Hk. induction s as [|x t IH]; intros bf cs; simpl; [reflexivity|].
  destruct (f x) eqn:Hx; [|reflexivity].
  rewrite IH. destruct (k (skip_set f (x :: bf) t) cs); [reflexivity|].
  apply Hk, Hx.
Qed.

Lemma rest_skip_set f : forall s bf, rest (skip_set f bf s) = dropwhile f s.
Proof.
  induction s as [|x t IH]; intros bf; simpl; [reflexivity|].
  destruct (f x); [apply IH | reflexivity].
Qed.

Lemma length_dropwhile f (s : str) : length (dropwhile f s) <= length s.
Proof.
  induction s as [|x t IH]; simpl; [lia|]. destruct (f x); simpl; lia.
Qed.

Lemma match_plus_set ml f bf s :
  match_at ml (rplus (RSet f)) (Pos bf s) =
    match s with
    | x :: t => if f x then Some (skip_set f (x :: bf) t, []) else None
    | [] => None
    end.
Proof.
  unfold match_at, rplus. rewrite rmatch_cat, rmatch_set.
  destruct s as [|x t]; [reflexivity|]. destruct (f x); [|reflexivity].
  rewrite rmatch_star. cbn [rest].
  rewrite star_set_eq by lia. apply try_down_accept.
Qed.

(** [re.sub] of the pattern [f+] replaces every maximal run. *)
Lemma sub_from_plus_set ml f repl :
  forall s bf,
    sub_from ml (rplus (RSet f)) repl bf s 0 = collapse f repl false s
    /\ sub_from ml (rplus (RSet f)) repl bf s (length s - length (dropwhile f s))
       = collapse f repl true s.
Proof.
  induction s as [|x t IH]; intros bf.
  - split; reflexivity.
  - assert (H0 : sub_from ml (rplus (RSet f)) repl bf (x :: t) 0
                 = collapse f repl false (x :: t)).
    { cbn [sub_from]. rewrite match_plus_set. cbn [collapse].
      destruct (f x) eqn:Hx.
      - rewrite rest_skip_set. cbn [length].
        pose proof (length_dropwhile f t) as Hl.
        replace (S (length t) - length (dropwhile f t))
          with (S (length t - length (dropwhile f t))) by lia.
        cbn [app]. rewrite Nat.sub_succ, Nat.sub_0_r.
        rewrite (proj2 (IH (x :: bf))). reflexivity.
      - rewrite (proj1 (IH (x :: bf))). reflexivity. }
    split; [exact H0|].
    cbn [dropwhile collapse]. destruct (f x) eqn:Hx.
    + pose proof (length_dropwhile f t) as Hl. cbn [length].
      replace (S (length t) - length (dropwhile f t))
        with (S (length t - length (dropwhile f t))) by lia.
      cbn [sub_from app]. apply (proj2 (IH (x :: bf))).
    + rewrite Nat.sub_diag. rewrite H0. cbn [collapse]. rewrite Hx. reflexivity.
Qed.

Lemma sub_plus_set ml f repl s :
  sub ml (rplus (RSet f)) repl s = collapse f repl false s.
Proof. apply sub_from_plus_set. Qed.

Lemma sub_plus_chr ml c repl s :
  sub ml (rplus (RChr c)) repl s = collapse (fun x => N.eqb x c) repl false s.
Proof. apply (sub_plus_set ml (fun x => N.eqb x c)). Qed.

(** *** The pattern of [base_disk_for_block_device] *)

Lemma digit_not_NL c : digit c = true -> N.eqb c NL = false.
Proof.
  unfold digit, NL. rewrite andb_true_iff, N.leb_le. intros [H _].
  apply N.eqb_neq. lia.
Qed.

Lemma match_number_eol bf s :
  match_at false number_eol (Pos bf s) =
    match s with
    | x :: t =>
        if digit x && ends_subject (dropwhile digit t)
        then Some (skip_set digit (x :: bf) t, [])
        else None
    | [] => None
    end.
Proof.
  unfold match_at, number_eol, rplus. rewrite !rmatch_cat, rmatch_set.
  destruct s as [|x t]; [reflexivity|]. destruct (digit x); [|reflexivity].
  rewrite rmatch_star. cbn [rest]. rewrite star_set_eq by lia.
  rewrite try_down_det.
  - cbn [rmatch andb]. unfold at_eol. rewrite rest_skip_set.
    unfold ends_subject.
    destruct (dropwhile digit t) as [|c u]; [reflexivity|]. reflexivity.
  - intros bf' c u cs Hc. cbn [rmatch]. unfold at_eol; cbn [rest].
    rewrite (digit_not_NL c Hc). reflexivity.
Qed.

Lemma sub_from_number_skip repl :
  forall s bf,
    ends_subject (dropwhile digit s) = true ->
    sub_from false number_eol repl bf s (length s - length (dropwhile digit s))
    = dropwhile digit s.
Proof.
  induction s as [|x t IH]; intros bf Hend; [reflexivity|].
  cbn [dropwhile] in *. destruct (digit x) eqn:Hx.
  - pose proof (length_dropwhile digit t) as Hl. cbn [length].
    replace (S (length t) - length (dropwhile digit t))
      with (S (length t - length (dropwhile digit t))) by lia.
    cbn [sub_from]. apply IH, Hend.
  - rewrite Nat.sub_diag. cbn [sub_from]. rewrite match_number_eol, Hx.
    cbn [andb]. cbn [ends_subject] in Hend.
    destruct t as [|y u]; [reflexivity|].
    rewrite andb_false_r in Hend; discriminate.
Qed.

(** [re.sub('[0-9]+$', '', s)] *)
Lemma sub_from_number_eol :
  forall s bf, sub_from false number_eol [] bf s 0 = strip_number s.
Proof.
  induction s as [|x t IH]; intros bf; [reflexivity|].
  cbn [sub_from strip_number]. rewrite match_number_eol.
  destruct (digit x && ends_subject (dropwhile digit t)) eqn:Hc.
  - apply andb_true_iff in Hc. destruct Hc as [_ Hend].
    rewrite rest_skip_set. cbn [length app].
    pose proof (length_dropwhile digit t) as Hl.
    replace (S (length t) - length (dropwhile digit t))
      with (S (length t - length (dropwhile digit t))) by lia.
    rewrite Nat.sub_succ, Nat.sub_0_r.
    apply sub_from_number_skip, Hend.
  - rewrite IH. reflexivity.
Qed.

Lemma sub_number_eol s : sub false number_eol [] s = strip_number s.
Proof. apply sub_from_number_eol. Qed.

Lemma base_disk_eq E x :
  base_disk_for_block_device E x = strip_number (realpath E x).
Proof. apply sub_number_eol. Qed.

Lemma dropwhile_nil_forallb f (s : str) :
  dropwhile f s = [] <-> forallb f s = true.
Proof.
  induction s as [|x t IH]; simpl; [tauto|].
  destruct (f x); simpl; [exact IH|]. split; discriminate.
Qed.

Lemma ends_subject_no_NL (s : str) :
  ~ In NL s -> ends_subject s = true -> s = [].
Proof.
  destruct s as [|c t]; [reflexivity|]. simpl. intros Hn H.
  apply andb_true_iff in H. destruct H as [H _].
  apply N.eqb_eq in H. exfalso; apply Hn; left; exact H.
Qed.

Lemma In_dropwhile f (s : str) c : In c (dropwhile f s) -> In c s.
Proof.
  induction s as [|x t IH]; simpl; [tauto|].
  destruct (f x); simpl; tauto.
Qed.

Lemma In_strip_number s c : In c (strip_number s) -> In c s.
Proof.
  induction s as [|x t IH]; simpl; [tauto|].
  destruct (digit x && ends_subject (dropwhile digit t)).
  - intros H; right; apply (In_dropwhile digit t c H).
  - simpl; tauto.
Qed.

Lemma strip_number_all_digits s :
  ~ In NL s -> forallb digit (strip_number s) = true ->
  strip_number s = [] /\ forallb digit s = true.
Proof.
  induction s as [|x t IH]; intros Hn Hd; [split; reflexivity|].
  assert (Hnt : ~ In NL t) by (intros H; apply Hn; right; exact H).
  cbn [strip_number] in *.
  destruct (digit x && ends_subject (dropwhile digit t)) eqn:Hc.
  - apply andb_true_iff in Hc. destruct Hc as [Hx Hend].
    apply ends_subject_no_NL in Hend.
    + split; [exact Hend|]. simpl. rewrite Hx.
      apply dropwhile_nil_forallb, Hend.
    + intros H; apply Hnt, (In_dropwhile digit t NL H).
  - simpl in Hd. apply andb_true_iff in Hd. destruct Hd as [Hx Hd].
    destruct (IH Hnt Hd) as [_ Ht].
    apply dropwhile_nil_forallb in Ht.
    rewrite Hx, Ht in Hc. discriminate.
Qed.

(** Stripping the final digits of a subject without newline is
    idempotent. *)
Lemma strip_number_idem s :
  ~ In NL s -> strip_number (strip_number s) = strip_number s.
Proof.
  induction s as [|x t IH]; intros Hn; [reflexivity|].
  assert (Hnt : ~ In NL t) by (intros H; apply Hn; right; exact H).
  cbn [strip_number].
  destruct (digit x && ends_subject (dropwhile digit t)) eqn:Hc.
  - apply andb_true_iff in Hc. destruct Hc as [_ Hend].
    apply ends_subject_no_NL in Hend.
    + rewrite Hend; reflexivity.
    + intros H; apply Hnt, (In_dropwhile digit t NL H).
  - cbn [strip_number].
    destruct (digit x && ends_subject (dropwhile digit (strip_number t))) eqn:Hc'.
    + exfalso. apply andb_true_iff in Hc'. destruct Hc' as [Hx Hend].
      assert (Hnr : ~ In NL (strip_number t))
        by (intros H; apply Hnt, In_strip_number, H).
      apply ends_subject_no_NL in Hend.
      * apply dropwhile_nil_forallb in Hend.
        destruct (strip_number_all_digits t Hnt Hend) as [_ Ht].
        apply dropwhile_nil_forallb in Ht.
        rewrite Hx, Ht in Hc. discriminate.
      * intros H; apply Hnr, (In_dropwhile digit _ NL H).
    + rewrite (IH Hnt). reflexivity.
Qed.

(** *** The matcher against the declarative reading of a pattern *)

Lemma consumed_app bf bf' (w rest' : str) :
  consumed (Pos bf (w ++ rest')) (Pos bf' rest') = w.
Proof.
  unfold consumed; cbn [rest]. rewrite length_app.
  replace (length w + length rest' - length rest') with (length w) by lia.
  rewrite firstn_app, Nat.sub_diag, firstn_all. simpl. apply app_nil_r.
Qed.

Lemma star_loop_sound ml a
  (IHa : forall p cs k x, rmatch ml a p cs k = Some x ->
     exists w rest' cs', rest p = w ++ rest'
       /\ Matches ml a (before p) w rest' cs cs'
       /\ k (Pos (rev w ++ before p) rest') cs' = Some x) :
  forall n p cs k x, star_loop (rmatch ml a) n p cs k = Some x ->
    exists w rest' cs', rest p = w ++ rest'
      /\ Matches ml (RStar a) (before p) w rest' cs cs'
      /\ k (Pos (rev w ++ before p) rest') cs' = Some x.
Proof.
  assert (Hzero : forall p cs (k : kont) x, k p cs = Some x ->
    exists w rest' cs', rest p = w ++ rest'
      /\ Matches ml (RStar a) (before p) w rest' cs cs'
      /\ k (Pos (rev w ++ before p) rest') cs' = Some x).
  { intros [bf s] cs k x H. exists [], s, cs. repeat split; [constructor | exact H]. }
  induction n as [|n IH]; intros p cs k x H; cbn [star_loop] in H.
  - apply Hzero, H.
  - match type of H with
    | match ?m with _ => _ end = _ => destruct m as [y|] eqn:Hbody
    end; [|apply Hzero, H].
    injection H as ->.
    apply IHa in Hbody. destruct Hbody as (w1 & rest1 & cs1 & Hp & Hm1 & Hk).
    cbn [rest] in Hk.
    destruct (length rest1 <? length (rest p)) eqn:Hlt; [|discriminate].
    apply Nat.ltb_lt in Hlt.
    apply IH in Hk. cbn [rest before] in Hk.
    destruct Hk as (w2 & rest2 & cs2 & Hr1 & Hm2 & Hk).
    exists (w1 ++ w2), rest2, cs2. subst rest1. split; [|split].
    + rewrite Hp, app_assoc; reflexivity.
    + apply MStarS with (cs1 := cs1); try assumption.
      intros ->. rewrite Hp in Hlt. simpl in Hlt. lia.
    + rewrite rev_app_distr, <- app_assoc. exact Hk.
Qed.

(** Whatever the matcher finds is a reading of the pattern. *)
Lemma rmatch_sound ml r :
  forall p cs k x, rmatch ml r p cs k = Some x ->
    exists w rest' cs', rest p = w ++ rest'
      /\ Matches ml r (before p) w rest' cs cs'
      /\ k (Pos (rev w ++ before p) rest') cs' = Some x.
Proof.
  induction r as [|c|f|a IHa b IHb|a IHa b IHb|a IHa|i a IHa| |];
    intros [bf s] cs k x H; cbn [rmatch rest before] in *.
  - exists [], s, cs. repeat split; [constructor | exact H].
  - destruct s as [|y t]; [discriminate|].
    destruct (N.eqb y c) eqn:Hy; [|discriminate].
    apply N.eqb_eq in Hy; subst y.
    exists [c], t, cs. repeat split; [constructor | exact H].
  - destruct s as [|y t]; [discriminate|].
    destruct (f y) eqn:Hy; [|discriminate].
    exists [y], t, cs. repeat split; [constructor; exact Hy | exact H].
  - apply IHa in H. cbn [rest before] in H.
    destruct H as (w1 & rest1 & cs1 & Hs & Hm1 & H).
    apply IHb in H. cbn [rest before] in H.
    destruct H as (w2 & rest2 & cs2 & Hr & Hm2 & H). subst rest1.
    exists (w1 ++ w2), rest2, cs2. split; [|split].
    + rewrite Hs, app_assoc; reflexivity.
    + econstructor; eassumption.
    + rewrite rev_app_distr, <- app_assoc. exact H.
  - destruct (rmatch ml a (Pos bf s) cs k) as [y|] eqn:Ha.
    + injection H as ->. apply IHa in Ha. cbn [rest before] in Ha.
      destruct Ha as (w & rest' & cs' & Hs & Hm & Hk).
      exists w, rest', cs'. repeat split; [exact Hs | apply MAltL, Hm | exact Hk].
    + apply IHb in H. cbn [rest before] in H.
      destruct H as (w & rest' & cs' & Hs & Hm & Hk).
      exists w, rest', cs'. repeat split; [exact Hs | apply MAltR, Hm | exact Hk].
  - apply (star_loop_sound IHa) in H. exact H.
  - apply IHa in H. cbn [rest before] in H.
    destruct H as (w & rest' & cs' & Hs & Hm & Hk). subst s.
    rewrite consumed_app in Hk.
    exists w, rest', ((i, w) :: cs'). repeat split; [constructor; exact Hm | exact Hk].
  - destruct (at_bol ml (Pos bf s)) eqn:Hb; [|discriminate].
    exists [], s, cs. repeat split; [constructor; exact Hb | exact H].
  - destruct (at_eol ml (Pos bf s)) eqn:Hb; [|discriminate].
    exists [], s, cs. repeat split; [constructor; exact Hb | exact H].
Qed.

(** Every reading of the pattern that the continuation accepts makes the
    matcher succeed. *)
Lemma rmatch_complete ml r bf w rest' cs cs' :
  Matches ml r bf w rest' cs cs' ->
  forall k : kont, k (Pos (rev w ++ bf) rest') cs' <> None ->
    rmatch ml r (Pos bf (w ++ rest')) cs k <> None
    /\ match r with
       | RStar a => forall n, length (w ++ rest') <= n ->
           star_loop (rmatch ml a) n (Pos bf (w ++ rest')) cs k <> None
       | _ => True
       end.
Proof.
  induction 1 as [bf rest' cs|c bf rest' cs|f c bf rest' cs Hc
                 |a b bf w1 w2 rest' cs cs1 cs2 _ IH1 _ IH2
                 |a b bf w rest' cs cs1 _ IH|a b bf w rest' cs cs1 _ IH
                 |a bf rest' cs|a bf w1 w2 rest' cs cs1 cs2 Hne _ IH1 _ IH2
                 |i a bf w rest' cs cs1 _ IH|bf rest' cs Hb|bf rest' cs Hb];
    intros k Hk; cbn [rev app] in *.
  - split; [exact Hk | exact I].
  - split; [|exact I]. cbn [rmatch rest before]. rewrite N.eqb_refl. exact Hk.
  - split; [|exact I]. cbn [rmatch rest before]. rewrite Hc. exact Hk.
  - split; [|exact I]. rewrite rmatch_cat, <- app_assoc.
    apply IH1. apply IH2.
    rewrite rev_app_distr, <- app_assoc in Hk. exact Hk.
  - split; [|exact I]. cbn [rmatch].
    destruct (IH k Hk) as [Ha _].
    destruct (rmatch ml a (Pos bf (w ++ rest')) cs k); [discriminate | contradiction].
  - split; [|exact I]. cbn [rmatch].
    destruct (IH k Hk) as [Hb _].
    destruct (rmatch ml a (Pos bf (w ++ rest')) cs k); [discriminate | exact Hb].
  - assert (Hn : forall n, star_loop (rmatch ml a) n (Pos bf rest') cs k <> None).
    { intros [|n]; cbn [star_loop]; [exact Hk|].
      destruct (rmatch ml a _ _ _); [discriminate | exact Hk]. }
    split; [apply Hn | intros n _; apply Hn].
  - assert (Hn : forall n, length ((w1 ++ w2) ++ rest') <= n ->
        star_loop (rmatch ml a) n (Pos bf ((w1 ++ w2) ++ rest')) cs k <> None).
    { intros n Hlen. rewrite <- app_assoc in *.
      destruct n as [|n].
      { destruct w1; [congruence | simpl in Hlen; lia]. }
      cbn [star_loop].
      match goal with
      | |- match ?m with _ => _ end <> None =>
          assert (Hbody : m <> None); [|destruct m; [discriminate | contradiction]]
      end.
      apply IH1. cbn [rest].
      assert (Hlt : length (w2 ++ rest') < length (w1 ++ w2 ++ rest')).
      { rewrite (length_app w1). destruct w1; [congruence | simpl; lia]. }
      rewrite (proj2 (Nat.ltb_lt _ _) Hlt).
      rewrite rev_app_distr, <- app_assoc in Hk.
      apply (proj2 (IH2 k Hk)). lia. }
    split; [rewrite rmatch_star; apply Hn; cbn [rest]; lia | exact Hn].
  - split; [|exact I]. cbn [rmatch]. apply IH.
    rewrite consumed_app. exact Hk.
  - split; [|exact I]. cbn [rmatch].
    replace (at_bol ml (Pos bf rest')) with true. exact Hk.
  - split; [|exact I]. cbn [rmatch].
    replace (at_eol ml (Pos bf rest')) with true. exact Hk.
Qed.

(** *** Readings of the pieces of [line_re] *)

Ltac inv H := inversion H; subst; clear H.

Lemma MCat_eq ml a b bf w w1 w2 rest' cs cs1 cs2 :
  w = w1 ++ w2 ->
  Matches ml a bf w1 (w2 ++ rest') cs cs1 ->
  Matches ml b (rev w1 ++ bf) w2 rest' cs1 cs2 ->
  Matches ml (RCat a b) bf w rest' cs cs2.
Proof. intros ->; apply MCat. Qed.

Lemma Matches_rlit ml s :
  forall bf w rest' cs cs',
    Matches ml (rlit s) bf w rest' cs cs' <-> w = s /\ cs' = cs.
Proof.
  induction s as [|c t IH]; intros bf w rest' cs cs'; cbn [rlit].
  - split.
    + intros H; inv H; split; reflexivity.
    + intros [-> ->]; constructor.
  - split.
    + intros H; inv H.
      match goal with H : Matches _ (RChr _) _ _ _ _ _ |- _ => inv H end.
      match goal with H : Matches _ (rlit _) _ _ _ _ _ |- _ =>
        apply IH in H; destruct H as [-> ->] end.
      split; reflexivity.
    + intros [-> ->].
      apply MCat_eq with (w1 := [c]) (w2 := t) (cs1 := cs); [reflexivity|constructor|].
      apply IH; split; reflexivity.
Qed.

Lemma Matches_set ml f bf w rest' cs cs' :
  Matches ml (RSet f) bf w rest' cs cs' <->
  exists c, w = [c] /\ f c = true /\ cs' = cs.
Proof.
  split.
  - intros H; inv H. eexists; repeat split; assumption.
  - intros (c & -> & Hc & ->); constructor; exact Hc.
Qed.

Lemma Matches_star_set ml f bf w rest' cs cs' :
  Matches ml (RStar (RSet f)) bf w rest' cs cs' <->
  forallb f w = true /\ cs' = cs.
Proof.
  split.
  - intros H. remember (RStar (RSet f)) as r eqn:Hr.
    induction H; try discriminate; injection Hr as ->.
    + split; reflexivity.
    + match goal with H : Matches _ (RSet _) _ _ _ _ _ |- _ => inv H end.
      destruct IHMatches2 as [Hw ->]; [reflexivity|].
      split; [|reflexivity]. simpl.
      apply andb_true_iff; split; assumption.
  - intros [Hw ->]. revert bf Hw.
    induction w as [|c t IH]; intros bf Hw; [constructor|].
    simpl in Hw. apply andb_true_iff in Hw. destruct Hw as [Hc Ht].
    change (c :: t) with ([c] ++ t).
    apply MStarS with (cs1 := cs); [discriminate | constructor; exact Hc | apply IH, Ht].
Qed.

Lemma Matches_ralts_rlit ml l :
  forall bf w rest' cs cs',
    Matches ml (ralts (List.map rlit l)) bf w rest' cs cs' <-> In w l /\ cs' = cs.
Proof.
  induction l as [|a l IH]; intros bf w rest' cs cs'.
  - simpl. split.
    + intros H; inv H; discriminate.
    + intros [[] _].
  - destruct l as [|b l'].
    + cbn [List.map ralts]. rewrite Matches_rlit. simpl.
      split; [intros [-> ->]; auto | intros [[->|[]] ->]; auto].
    + change (ralts (List.map rlit (a :: b :: l')))
        with (RAlt (rlit a) (ralts (List.map rlit (b :: l')))).
      split.
      * intros H; inv H.
        -- match goal with H : Matches _ (rlit _) _ _ _ _ _ |- _ =>
             apply Matches_rlit in H; destruct H as [-> ->] end.
           split; [left|]; reflexivity.
        -- match goal with H : Matches _ _ _ _ _ _ _ |- _ =>
             apply IH in H; destruct H as [Hin ->] end.
           split; [right; exact Hin | reflexivity].
      * intros [[->|Hin] ->].
        -- apply MAltL, Matches_rlit; split; reflexivity.
        -- apply MAltR, IH; split; [exact Hin | reflexivity].
Qed.

Lemma after_prefix_Some p : forall s t, after_prefix p s = Some t <-> s = p ++ t.
Proof.
  induction p as [|x p IH]; intros s t; simpl.
  - split; [intros H; injection H as ->; reflexivity | intros ->; reflexivity].
  - destruct s as [|y s].
    + split; discriminate.
    + destruct (N.eqb x y) eqn:Hxy.
      * apply N.eqb_eq in Hxy; subst y. rewrite IH.
        split; [intros ->; reflexivity | intros H; injection H; auto].
      * apply N.eqb_neq in Hxy.
        split; [discriminate | intros H; injection H; intros; congruence].
Qed.

Lemma is_device_path_iff d :
  is_device_path d = true <->
  exists t, d = lit "/dev/" ++ t /\ forallb disk_char t = true.
Proof.
  unfold is_device_path. split.
  - destruct (after_prefix (lit "/dev/") d) as [t|] eqn:H; [|discriminate].
    apply after_prefix_Some in H. intros Ht; exists t; split; assumption.
  - intros (t & Hd & Ht). apply after_prefix_Some in Hd. rewrite Hd; exact Ht.
Qed.

Lemma is_state_iff st : is_state st = true <-> In st states.
Proof.
  unfold is_state. rewrite existsb_exists. split.
  - intros (x & Hin & Heq). apply str_eqb_eq in Heq; subst; exact Hin.
  - intros Hin; exists st; split; [exact Hin | apply str_eqb_refl].
Qed.

Lemma is_number_iff n :
  is_number n = true <-> exists c t, n = c :: t /\ digit c = true /\ forallb digit t = true.
Proof.
  destruct n as [|c t]; simpl.
  - split; [discriminate | intros (c & t & H & _); discriminate].
  - rewrite andb_true_iff. split.
    + intros [Hc Ht]; exists c, t; auto.
    + intros (c' & t' & H & Hc & Ht); injection H as -> ->; auto.
Qed.

Lemma Matches_disk_re ml bf w rest' cs cs' :
  Matches ml disk_re bf w rest' cs cs' <->
  is_device_path w = true /\ cs' = (1, w) :: cs.
Proof.
  unfold disk_re. rewrite is_device_path_iff. split.
  - intros H; inv H.
    match goal with H : Matches _ (RCat _ _) _ _ _ _ _ |- _ => inv H end.
    match goal with H : Matches _ (RCat _ _) _ _ _ _ _ |- _ =>
      apply (Matches_rlit ml (lit "/dev/")) in H; destruct H as [-> ->] end.
    match goal with H : Matches _ (RStar _) _ _ _ _ _ |- _ =>
      apply Matches_star_set in H; destruct H as [Ht ->] end.
    split; [|reflexivity]. eexists; split; [reflexivity | exact Ht].
  - intros [(t & -> & Ht) ->]. constructor.
    apply MCat with (cs1 := cs).
    + apply Matches_rlit; split; reflexivity.
    + apply Matches_star_set; split; [exact Ht | reflexivity].
Qed.

Lemma Matches_states_re ml bf w rest' cs cs' :
  Matches ml states_re bf w rest' cs cs' <->
  is_state w = true /\ cs' = (2, w) :: cs.
Proof.
  unfold states_re. rewrite is_state_iff. split.
  - intros H; inv H.
    match goal with H : Matches _ _ _ _ _ _ _ |- _ =>
      apply (Matches_ralts_rlit ml states) in H; destruct H as [Hin ->] end.
    split; [exact Hin | reflexivity].
  - intros [Hin ->]. constructor.
    apply Matches_ralts_rlit; split; [exact Hin | reflexivity].
Qed.

Lemma Matches_num_re ml i bf w rest' cs cs' :
  Matches ml (num_re i) bf w rest' cs cs' <->
  is_number w = true /\ cs' = (i, w) :: cs.
Proof.
  unfold num_re. rewrite is_number_iff. split.
  - intros H; inv H.
    match goal with H : Matches _ (RCat _ _) _ _ _ _ _ |- _ => inv H end.
    match goal with H : Matches _ (RSet _) _ _ _ _ _ |- _ => inv H end.
    match goal with H : Matches _ (RStar _) _ _ _ _ _ |- _ =>
      apply Matches_star_set in H; destruct H as [Ht ->] end.
    split; [|reflexivity]. eexists _, _; split; [reflexivity|]. split; assumption.
  - intros [(c & t & -> & Hc & Ht) ->]. constructor.
    change (c :: t) with ([c] ++ t).
    apply MCat with (cs1 := cs).
    + constructor; exact Hc.
    + apply Matches_star_set; split; [exact Ht | reflexivity].
Qed.

(** *** Readings of [line_re] *)

Lemma Matches_cat_inv ml a b bf w rest' cs cs2 :
  Matches ml (RCat a b) bf w rest' cs cs2 ->
  exists w1 w2 cs1,
    w = w1 ++ w2
    /\ Matches ml a bf w1 (w2 ++ rest') cs cs1
    /\ Matches ml b (rev w1 ++ bf) w2 rest' cs1 cs2.
Proof. intros H; inv H. eexists _, _, _; repeat split; eassumption. Qed.

Lemma Matches_chr_inv ml c bf w rest' cs cs' :
  Matches ml (RChr c) bf w rest' cs cs' -> w = [c] /\ cs' = cs.
Proof. intros H; inv H; split; reflexivity. Qed.

Lemma Matches_bol_inv ml bf w rest' cs cs' :
  Matches ml RBol bf w rest' cs cs' ->
  w = [] /\ cs' = cs /\ at_bol ml (Pos bf rest') = true.
Proof. intros H; inv H; repeat split; assumption. Qed.

Lemma Matches_eol_inv ml bf w rest' cs cs' :
  Matches ml REol bf w rest' cs cs' ->
  w = [] /\ cs' = cs /\ at_eol ml (Pos bf rest') = true.
Proof. intros H; inv H; repeat split; assumption. Qed.

Ltac split_cat H w1 cs1 H1 :=
  apply Matches_cat_inv in H;
  let w2 := fresh "w" in
  destruct H as (w1 & w2 & cs1 & -> & H1 & H).

Ltac split_space H :=
  let w1 := fresh "w" in
  let cs1 := fresh "cs" in
  let H1 := fresh "H" in
  split_cat H w1 cs1 H1;
  apply Matches_chr_inv in H1; destruct H1 as [-> ->].

(** The readings of [line_re] are the device lines between a line start
    and a line end. *)
Lemma Matches_line_re bf w rest' cs :
  Matches true line_re bf w rest' [] cs <->
  bol bf = true /\ eol rest' = true
  /\ exists d st n1 n2 n3,
      w = d ++ SPACE :: st ++ SPACE :: n1 ++ SPACE :: n2 ++ SPACE :: n3
      /\ is_device_path d = true /\ is_state st = true
      /\ is_number n1 = true /\ is_number n2 = true /\ is_number n3 = true
      /\ cs = [(5, n3); (4, n2); (3, n1); (2, st); (1, d)].
Proof.
  unfold line_re. split.
  - intros H.
    split_cat H w0 cs0 Hbol.
    apply Matches_bol_inv in Hbol. destruct Hbol as (-> & -> & Hbol).
    split_cat H d cs1 Hd. apply Matches_disk_re in Hd. destruct Hd as [Hd ->].
    split_space H.
    split_cat H st cs2 Hst. apply Matches_states_re in Hst. destruct Hst as [Hst ->].
    split_space H.
    split_cat H n1 cs3 Hn1. apply Matches_num_re in Hn1. destruct Hn1 as [Hn1 ->].
    split_space H.
    split_cat H n2 cs4 Hn2. apply Matches_num_re in Hn2. destruct Hn2 as [Hn2 ->].
    split_space H.
    split_cat H n3 cs5 Hn3. apply Matches_num_re in Hn3. destruct Hn3 as [Hn3 ->].
    apply Matches_eol_inv in H. destruct H as (-> & -> & Heol).
    split; [exact Hbol|]. split; [exact Heol|].
    exists d, st, n1, n2, n3. rewrite app_nil_r. simpl.
    repeat split; assumption.
  - intros (Hbol & Heol & d & st & n1 & n2 & n3 & -> & Hd & Hst & Hn1 & Hn2 & Hn3 & ->).
    apply MCat_eq with (w1 := []) (cs1 := [])
      (w2 := d ++ SPACE :: st ++ SPACE :: n1 ++ SPACE :: n2 ++ SPACE :: n3);
      [reflexivity | constructor; exact Hbol |].
    apply MCat with (cs1 := [(1, d)]);
      [apply Matches_disk_re; split; [exact Hd | reflexivity] |].
    apply MCat_eq with (w1 := [SPACE]) (cs1 := [(1, d)])
      (w2 := st ++ SPACE :: n1 ++ SPACE :: n2 ++ SPACE :: n3);
      [reflexivity | constructor |].
    apply MCat with (cs1 := [(2, st); (1, d)]);
      [apply Matches_states_re; split; [exact Hst | reflexivity] |].
    apply MCat_eq with (w1 := [SPACE]) (cs1 := [(2, st); (1, d)])
      (w2 := n1 ++ SPACE :: n2 ++ SPACE :: n3);
      [reflexivity | constructor |].
    apply MCat with (cs1 := [(3, n1); (2, st); (1, d)]);
      [apply Matches_num_re; split; [exact Hn1 | reflexivity] |].
    apply MCat_eq with (w1 := [SPACE]) (cs1 := [(3, n1); (2, st); (1, d)])
      (w2 := n2 ++ SPACE :: n3);
      [reflexivity | constructor |].
    apply MCat with (cs1 := [(4, n2); (3, n1); (2, st); (1, d)]);
      [apply Matches_num_re; split; [exact Hn2 | reflexivity] |].
    apply MCat_eq with (w1 := [SPACE]) (cs1 := [(4, n2); (3, n1); (2, st); (1, d)])
      (w2 := n3);
      [reflexivity | constructor |].
    apply MCat_eq with (w1 := n3) (w2 := []) (cs1 := [(5, n3); (4, n2); (3, n1); (2, st); (1, d)]);
      [symmetry; apply app_nil_r | apply Matches_num_re; split; [exact Hn3 | reflexivity] |].
    constructor. exact Heol.
Qed.

(** *** Device lines *)

Lemma forallb_not_In (f : char -> bool) (s : str) c :
  forallb f s = true -> f c = false -> ~ In c s.
Proof.
  intros Hs Hc Hin. rewrite forallb_forall in Hs.
  rewrite (Hs c Hin) in Hc; discriminate.
Qed.

Lemma forallb_weaken (f g : char -> bool) (s : str) :
  (forall c, f c = true -> g c = true) -> forallb f s = true -> forallb g s = true.
Proof.
  intros Hfg. rewrite !forallb_forall. intros H c Hc; apply Hfg, H, Hc.
Qed.

Lemma digit_disk_char c : digit c = true -> disk_char c = true.
Proof.
  unfold digit, disk_char. intros ->. rewrite orb_true_r. reflexivity.
Qed.

Lemma device_path_chars d : is_device_path d = true -> forallb disk_char d = true.
Proof.
  intros H. apply is_device_path_iff in H. destruct H as (t & -> & Ht).
  rewrite forallb_app, Ht. reflexivity.
Qed.

Lemma state_chars st : is_state st = true -> forallb disk_char st = true.
Proof.
  intros H. apply is_state_iff in H. unfold states in H. simpl in H.
  repeat (destruct H as [<-|H]; [reflexivity|]). contradiction.
Qed.

Lemma number_chars n : is_number n = true -> forallb disk_char n = true.
Proof.
  intros H. apply (forallb_weaken digit); [exact digit_disk_char|].
  destruct n; [discriminate | exact H].
Qed.

Lemma device_line_chars w d : device_line w d -> forallb line_char w = true.
Proof.
  intros (st & n1 & n2 & n3 & -> & Hd & Hst & Hn1 & Hn2 & Hn3).
  assert (Hw : forall s, forallb disk_char s = true -> forallb line_char s = true).
  { intros s. apply forallb_weaken. intros c Hc; unfold line_char; rewrite Hc; reflexivity. }
  apply device_path_chars, Hw in Hd. apply state_chars, Hw in Hst.
  apply number_chars, Hw in Hn1. apply number_chars, Hw in Hn2.
  apply number_chars, Hw in Hn3.
  repeat (rewrite forallb_app; cbn [forallb]).
  rewrite Hd, Hst, Hn1, Hn2, Hn3. reflexivity.
Qed.

Lemma device_line_no_NL w d : device_line w d -> ~ In NL w.
Proof.
  intros H. apply (forallb_not_In line_char); [|reflexivity].
  apply device_line_chars with d, H.
Qed.

Lemma app_sep_unique (c : char) :
  forall a a' t t', ~ In c a -> ~ In c a' -> a ++ c :: t = a' ++ c :: t' -> a = a'.
Proof.
  induction a as [|x a IH]; intros [|y a'] t t' Ha Ha' H; simpl in *.
  - reflexivity.
  - injection H as <- _. exfalso; apply Ha'; left; reflexivity.
  - injection H as -> _. exfalso; apply Ha; left; reflexivity.
  - injection H as -> H. f_equal. apply (IH a' t t'); [tauto | tauto | exact H].
Qed.

Lemma device_line_unique w d d' : device_line w d -> device_line w d' -> d = d'.
Proof.
  intros (st & n1 & n2 & n3 & -> & Hd & _) (st' & n1' & n2' & n3' & H & Hd' & _).
  apply (app_sep_unique SPACE) in H; [exact H | |];
    apply (forallb_not_In disk_char); try reflexivity; apply device_path_chars; assumption.
Qed.

Lemma eol_iff r : eol r = true <-> r = [] \/ exists t, r = NL :: t.
Proof.
  unfold eol, at_eol; cbn [rest]. destruct r as [|c t].
  - split; [left; reflexivity | reflexivity].
  - cbn [orb]. rewrite andb_true_r, N.eqb_eq. split.
    + intros ->; right; exists t; reflexivity.
    + intros [H|[t' H]]; [discriminate | injection H; auto].
Qed.

Lemma line_end_unique :
  forall w w' r r', ~ In NL w -> ~ In NL w' -> eol r = true -> eol r' = true ->
    w ++ r = w' ++ r' -> w = w' /\ r = r'.
Proof.
  induction w as [|x w IH]; intros [|y w'] r r' Hw Hw' Hr Hr' H; simpl in *.
  - split; [reflexivity | exact H].
  - exfalso. subst r. apply eol_iff in Hr.
    destruct Hr as [Hr|[t Hr]]; [discriminate|]. injection Hr as -> _.
    apply Hw'; left; reflexivity.
  - exfalso. subst r'. apply eol_iff in Hr'.
    destruct Hr' as [Hr'|[t Hr']]; [discriminate|]. injection Hr' as -> _.
    apply Hw; left; reflexivity.
  - injection H as -> H.
    assert (Hi : w = w' /\ r = r') by (apply IH; tauto).
    destruct Hi as [-> ->]. split; reflexivity.
Qed.

Lemma match_at_line_sound bf s p' cs :
  match_at true line_re (Pos bf s) = Some (p', cs) ->
  bol bf = true
  /\ exists w, s = w ++ rest p' /\ eol (rest p') = true /\ device_line w (tup0 cs).
Proof.
  intros H. apply rmatch_sound in H. cbn [rest before] in H.
  destruct H as (w & rest' & cs' & -> & Hm & Hk).
  injection Hk as <- <-. apply Matches_line_re in Hm.
  destruct Hm as (Hbol & Heol & d & st & n1 & n2 & n3 & Hw & Hd & Hst & Hn1 & Hn2 & Hn3 & ->).
  split; [exact Hbol|]. exists w. cbn [rest].
  split; [reflexivity|]. split; [exact Heol|].
  exists st, n1, n2, n3. repeat split; assumption.
Qed.

Lemma match_at_line_complete bf w rest' d :
  bol bf = true -> eol rest' = true -> device_line w d ->
  match_at true line_re (Pos bf (w ++ rest')) <> None.
Proof.
  intros Hbol Heol (st & n1 & n2 & n3 & Hw & Hd & Hst & Hn1 & Hn2 & Hn3).
  unfold match_at.
  apply (@rmatch_complete true line_re bf w rest' []
           [(5, n3); (4, n2); (3, n1); (2, st); (1, d)]).
  - apply Matches_line_re. split; [exact Hbol|]. split; [exact Heol|].
    exists d, st, n1, n2, n3. repeat split; assumption.
  - discriminate.
Qed.

Lemma match_at_line_not_bol bf s :
  bol bf = false -> match_at true line_re (Pos bf s) = None.
Proof.
  intros Hb. destruct (match_at true line_re (Pos bf s)) as [[p' cs]|] eqn:H;
    [|reflexivity].
  apply match_at_line_sound in H. destruct H as [H _]. congruence.
Qed.

(** A text of one line yields at most one device, and yields [d] exactly
    when the line is a device line for [d]. *)
Lemma line_device_Some l d :
  ~ In NL l -> device_line l d -> line_device l = [d].
Proof.
  intros Hl Hd. unfold line_device.
  pose proof (@match_at_line_complete [] l [] d eq_refl eq_refl Hd) as Hc.
  rewrite app_nil_r in Hc.
  destruct (match_at true line_re (Pos [] l)) as [[p' cs]|] eqn:H; [|contradiction].
  apply match_at_line_sound in H. destruct H as (_ & w & Hw & Heol & Hd').
  assert (w = l) as ->.
  { symmetry. apply (@line_end_unique l w [] (rest p')); try assumption.
    - apply device_line_no_NL with (tup0 cs), Hd'.
    - reflexivity.
    - rewrite app_nil_r; exact Hw. }
  f_equal. apply device_line_unique with l; assumption.
Qed.

Lemma line_device_inv l :
  ~ In NL l ->
  line_device l = [] \/ exists d, line_device l = [d] /\ device_line l d.
Proof.
  intros Hl. unfold line_device.
  destruct (match_at true line_re (Pos [] l)) as [[p' cs]|] eqn:H; [|left; reflexivity].
  right. exists (tup0 cs). split; [reflexivity|].
  apply match_at_line_sound in H. destruct H as (_ & w & Hw & Heol & Hd').
  assert (w = l) as ->; [|exact Hd'].
  symmetry. apply (@line_end_unique l w [] (rest p')); try assumption.
  - apply device_line_no_NL with (tup0 cs), Hd'.
  - reflexivity.
  - rewrite app_nil_r; exact Hw.
Qed.

Lemma line_device_iff l d :
  ~ In NL l -> (line_device l = [d] <-> device_line l d).
Proof.
  intros Hl. split; [|apply line_device_Some, Hl].
  intros H. destruct (line_device_inv l Hl) as [H0|(d' & H1 & Hd)]; [congruence|].
  rewrite H in H1. injection H1 as <-. exact Hd.
Qed.

Lemma line_device_nil_iff l :
  ~ In NL l -> (line_device l = [] <-> forall d, ~ device_line l d).
Proof.
  intros Hl. split.
  - intros H d Hd. rewrite (line_device_Some Hl Hd) in H. discriminate.
  - intros H. destruct (line_device_inv l Hl) as [H0|(d' & _ & Hd)]; [exact H0|].
    exfalso; apply (H d'), Hd.
Qed.

(** *** [findall] goes line by line *)

Lemma split_cons_NL t : split NL (NL :: t) = [] :: split NL t.
Proof. reflexivity. Qed.

Lemma split_cons_other x t :
  N.eqb x NL = false ->
  split NL (x :: t) = (x :: hd [] (split NL t)) :: tl (split NL t).
Proof.
  intros H. cbn [split]. rewrite H. destruct (split NL t); reflexivity.
Qed.

Lemma split_hd s :
  exists r, s = hd [] (split NL s) ++ r /\ eol r = true /\ ~ In NL (hd [] (split NL s)).
Proof.
  induction s as [|x t (r & Hs & Hr & Hn)].
  - exists []. repeat split. intros [].
  - destruct (N.eqb x NL) eqn:Hx.
    + apply N.eqb_eq in Hx; subst x. exists (NL :: t).
      repeat split. intros [].
    + exists r. rewrite (split_cons_other x t Hx). cbn [hd app].
      split; [f_equal; exact Hs|]. split; [exact Hr|].
      intros [H|H]; [|exact (Hn H)].
      apply N.eqb_neq in Hx. congruence.
Qed.

Lemma device_line_not_nil d : ~ device_line [] d.
Proof.
  intros (st & n1 & n2 & n3 & H & _). symmetry in H.
  apply app_eq_nil in H. destruct H as [_ H]. discriminate.
Qed.

Lemma match_at_line_nil bf : match_at true line_re (Pos bf []) = None.
Proof.
  destruct (match_at true line_re (Pos bf [])) as [[p' cs]|] eqn:H; [|reflexivity].
  apply match_at_line_sound in H. destruct H as (_ & w & Hw & _ & Hd).
  symmetry in Hw. apply app_eq_nil in Hw. destruct Hw as [-> _].
  exfalso; exact (device_line_not_nil Hd).
Qed.

(** A match found at a line start is the device of that whole line. *)
Lemma match_at_first_line bf s p' cs :
  match_at true line_re (Pos bf s) = Some (p', cs) ->
  line_device (hd [] (split NL s)) = [tup0 cs]
  /\ length s - length (rest p') = length (hd [] (split NL s))
  /\ hd [] (split NL s) <> [].
Proof.
  intros H. apply match_at_line_sound in H.
  destruct H as (_ & w & Hw & Heol & Hd).
  destruct (split_hd s) as (r & Hs & Hr & Hn).
  assert (Hwr : w = hd [] (split NL s) /\ rest p' = r).
  { apply line_end_unique; try assumption.
    - apply device_line_no_NL with (tup0 cs), Hd.
    - rewrite <- Hw, <- Hs; reflexivity. }
  destruct Hwr as [<- <-]. split; [|split].
  - apply line_device_Some; [apply device_line_no_NL with (tup0 cs)|]; exact Hd.
  - rewrite Hw at 1. rewrite length_app. lia.
  - intros ->. exact (device_line_not_nil Hd).
Qed.

(** No match at a line start: the line is not a device line. *)
Lemma no_match_first_line bf s :
  bol bf = true -> match_at true line_re (Pos bf s) = None ->
  line_device (hd [] (split NL s)) = [].
Proof.
  intros Hbol H. destruct (split_hd s) as (r & Hs & Hr & Hn).
  destruct (line_device_inv _ Hn) as [H0|(d & _ & Hd)]; [exact H0|].
  exfalso. apply (@match_at_line_complete bf _ r d Hbol Hr Hd).
  rewrite <- Hs. exact H.
Qed.

Lemma bol_cons x bf : bol (x :: bf) = N.eqb x NL.
Proof. reflexivity. Qed.

Lemma findall_lines :
  forall s bf,
    (bol bf = true ->
     List.map tup0 (findall_from true line_re bf s 0)
     = flat_map line_device (split NL s))
    /\ (forall k, k <= length (hd [] (split NL s)) ->
          (k = 0 -> bol bf = false) ->
          List.map tup0 (findall_from true line_re bf s k)
          = flat_map line_device (tl (split NL s))).
Proof.
  induction s as [|x t IH]; intros bf.
  - split.
    + intros _. cbn [findall_from]. rewrite match_at_line_nil. reflexivity.
    + intros k Hk Hb. simpl in Hk. assert (k = 0) as -> by lia.
      cbn [findall_from]. rewrite match_at_line_nil. reflexivity.
  - destruct (IH (x :: bf)) as [IHA IHB].
    assert (Hstep : match_at true line_re (Pos bf (x :: t)) = None ->
              List.map tup0 (findall_from true line_re bf (x :: t) 0)
              = flat_map line_device (tl (split NL (x :: t)))).
    { intros Hnone. cbn [findall_from]. rewrite Hnone.
      destruct (N.eqb x NL) eqn:Hx.
      - rewrite IHA by (rewrite bol_cons; exact Hx).
        apply N.eqb_eq in Hx; subst x. reflexivity.
      - rewrite (split_cons_other x t Hx). cbn [tl].
        apply IHB; [lia | intros _; rewrite bol_cons; exact Hx]. }
    split.
    + intros Hbol.
      destruct (match_at true line_re (Pos bf (x :: t))) as [[p' cs]|] eqn:Hm.
      * destruct (match_at_first_line _ _ Hm) as (Hdev & Hlen & Hne).
        cbn [findall_from]. rewrite Hm.
        destruct (N.eqb x NL) eqn:Hx.
        { apply N.eqb_eq in Hx; subst x. exfalso; apply Hne; reflexivity. }
        rewrite (split_cons_other x t Hx) in *. cbn [hd] in *.
        cbn [flat_map List.map]. rewrite Hdev. cbn [app]. f_equal.
        rewrite Hlen. cbn [length]. rewrite Nat.sub_succ, Nat.sub_0_r.
        apply IHB; [lia | intros _; rewrite bol_cons; exact Hx].
      * rewrite (Hstep eq_refl).
        pose proof (no_match_first_line bf (x :: t) Hbol Hm) as Hdev.
        destruct (split NL (x :: t)) as [|h ls] eqn:Hsp.
        { destruct (N.eqb x NL) eqn:Hx.
          - apply N.eqb_eq in Hx; subst x; discriminate.
          - rewrite (split_cons_other x t Hx) in Hsp; discriminate. }
        cbn [hd] in Hdev. cbn [tl flat_map]. rewrite Hdev. reflexivity.
    + intros k Hk Hb. destruct k as [|k].
      * apply Hstep, match_at_line_not_bol, Hb; reflexivity.
      * destruct (N.eqb x NL) eqn:Hx.
        { apply N.eqb_eq in Hx; subst x. simpl in Hk. lia. }
        rewrite (split_cons_other x t Hx) in *. cbn [hd tl length] in *.
        cbn [findall_from].
        apply IHB; [lia | intros _; rewrite bol_cons; exact Hx].
Qed.

(** The devices of a normalized text are those of its lines, in order. *)
Lemma extract_devices_lines s :
  extract_devices s = flat_map line_device (split NL s).
Proof. apply (findall_lines s []). reflexivity. Qed.

(** ** Normalization of the status text *)

Lemma normalize_status_eq s :
  normalize_status s =
    join NL (List.map strip
               (split NL (collapse is_space [SPACE] false
                            (collapse is_tab [SPACE] false s)))).
Proof. unfold normalize_status. rewrite !sub_plus_chr. reflexivity. Qed.

(** *** Lines *)

Lemma split_not_nil sep s : split sep s <> [].
Proof.
  destruct s as [|x t]; simpl; [discriminate|].
  destruct (N.eqb x sep); [discriminate|]. destruct (split sep t); discriminate.
Qed.

Lemma split_no_sep (l : str) : ~ In NL l -> split NL l = [l].
Proof.
  induction l as [|x t IH]; intros Hn; [reflexivity|].
  assert (Hx : N.eqb x NL = false).
  { apply N.eqb_neq. intros ->. apply Hn; left; reflexivity. }
  rewrite (split_cons_other x t Hx), IH; [reflexivity|].
  intros H; apply Hn; right; exact H.
Qed.

Lemma split_app_nosep (pre u : str) :
  ~ In NL pre ->
  split NL (pre ++ u) = (pre ++ hd [] (split NL u)) :: tl (split NL u).
Proof.
  induction pre as [|x pre IH]; intros Hn.
  - simpl. destruct (split NL u) eqn:H; [|reflexivity].
    exfalso; exact (split_not_nil _ _ H).
  - assert (Hx : N.eqb x NL = false).
    { apply N.eqb_neq. intros ->. apply Hn; left; reflexivity. }
    cbn [app]. rewrite (split_cons_other x _ Hx), IH; [reflexivity|].
    intros H; apply Hn; right; exact H.
Qed.

Lemma split_app (a b : str) : split NL (a ++ NL :: b) = split NL a ++ split NL b.
Proof.
  induction a as [|x a IH]; [reflexivity|].
  cbn [app]. destruct (N.eqb x NL) eqn:Hx.
  - apply N.eqb_eq in Hx; subst x. rewrite !split_cons_NL, IH. reflexivity.
  - rewrite !(split_cons_other x _ Hx), IH.
    destruct (split NL a) eqn:Ha; [exfalso; exact (split_not_nil _ _ Ha)|].
    reflexivity.
Qed.

Lemma split_lines_no_NL s : Forall (fun l => ~ In NL l) (split NL s).
Proof.
  induction s as [|x t IH]; [constructor; [intros [] | constructor]|].
  destruct (N.eqb x NL) eqn:Hx.
  - apply N.eqb_eq in Hx; subst x. rewrite split_cons_NL.
    constructor; [intros [] | exact IH].
  - rewrite (split_cons_other x t Hx).
    destruct (split NL t) as [|l ls]; inversion IH; subst; constructor;
      try assumption; try constructor; cbn [hd];
      (intros [H|H]; [apply N.eqb_neq in Hx; congruence | tauto]).
Qed.

Lemma split_join (ls : list str) :
  ls <> [] -> Forall (fun l => ~ In NL l) ls -> split NL (join NL ls) = ls.
Proof.
  induction ls as [|l ls IH]; intros Hne Hall; [congruence|].
  inversion Hall as [|? ? Hl Hls]; subst.
  destruct ls as [|l2 ls'].
  - simpl. apply split_no_sep, Hl.
  - change (join NL (l :: l2 :: ls')) with (l ++ NL :: join NL (l2 :: ls')).
    rewrite split_app, (split_no_sep l Hl), IH; [reflexivity|discriminate|exact Hls].
Qed.

(** *** Runs *)

Lemma collapse_flag f repl (s : str) :
  (match s with [] => true | x :: _ => negb (f x) end) = true ->
  collapse f repl true s = collapse f repl false s.
Proof.
  destruct s as [|x t]; [reflexivity|]. simpl.
  destruct (f x); [discriminate | reflexivity].
Qed.

Lemma In_collapse f repl b (s : str) c :
  In c (collapse f repl b s) -> In c repl \/ (In c s /\ f c = false).
Proof.
  revert b; induction s as [|x t IH]; intros b; simpl; [tauto|].
  destruct (f x) eqn:Hx.
  - rewrite in_app_iff. intros [H|H].
    + left. destruct b; [contradiction | exact H].
    + destruct (IH _ H) as [H'|[H' Hc]]; [left; exact H' | right; tauto].
  - simpl. intros [H|H].
    + subst c. right; split; [left; reflexivity | exact Hx].
    + destruct (IH _ H) as [H'|[H' Hc]]; [left; exact H' | right; tauto].
Qed.

Lemma collapse_none f repl (s : str) :
  forallb (fun c => negb (f c)) s = true ->
  forall b, collapse f repl b s = s.
Proof.
  induction s as [|x t IH]; intros H b; [reflexivity|].
  simpl in *. apply andb_true_iff in H. destruct H as [Hx Ht].
  destruct (f x); [discriminate|]. rewrite IH by exact Ht. reflexivity.
Qed.

Lemma collapse_no_double f c (s : str) :
  f c = true ->
  forall b, no_double f b (collapse f [c] b s) = true.
Proof.
  intros Hc. induction s as [|x t IH]; intros b; [reflexivity|].
  simpl. destruct (f x) eqn:Hx.
  - destruct b; simpl; [apply IH|]. rewrite Hc. simpl. apply IH.
  - simpl. rewrite Hx. apply IH.
Qed.

Lemma collapse_single f c (s : str) :
  (forall x, f x = true -> x = c) ->
  forall b, no_double f b s = true -> collapse f [c] b s = s.
Proof.
  intros Hf. induction s as [|x t IH]; intros b H; [reflexivity|].
  simpl in *. destruct (f x) eqn:Hx.
  - apply andb_true_iff in H. destruct H as [Hb Ht].
    destruct b; [discriminate|]. simpl.
    rewrite (IH true Ht), (Hf x Hx). reflexivity.
  - rewrite (IH false H). reflexivity.
Qed.

Lemma no_double_weaken f (s : str) b :
  no_double f b s = true -> no_double f false s = true.
Proof.
  destruct s as [|x t]; [reflexivity|]. simpl.
  destruct (f x); [|auto]. destruct b; [discriminate | auto].
Qed.

Lemma no_double_tail f b x (t : str) :
  no_double f b (x :: t) = true -> no_double f false t = true.
Proof.
  simpl. destruct (f x).
  - intros H. apply andb_true_iff in H. destruct H as [_ H].
    apply no_double_weaken with true, H.
  - auto.
Qed.

Lemma no_double_prefix f (a r : str) :
  forall b, no_double f b (a ++ r) = true -> no_double f b a = true.
Proof.
  induction a as [|x a IH]; intros b H; [reflexivity|].
  simpl in *. destruct (f x).
  - apply andb_true_iff in H. destruct H as [Hb H].
    rewrite Hb. simpl. apply IH, H.
  - apply IH, H.
Qed.

Lemma no_double_dropwhile f g (s : str) :
  no_double f false s = true -> no_double f false (dropwhile g s) = true.
Proof.
  induction s as [|x t IH]; intros H; [reflexivity|].
  cbn [dropwhile]. destruct (g x); [|exact H].
  apply IH. apply no_double_tail with false x, H.
Qed.

Lemma collapse_app_sep f repl sep (a t : str) :
  f sep = false ->
  forall b, collapse f repl b (a ++ sep :: t)
            = collapse f repl b a ++ sep :: collapse f repl false t.
Proof.
  intros Hsep. induction a as [|x a IH]; intros b; simpl.
  - rewrite Hsep. reflexivity.
  - destruct (f x); rewrite IH; [rewrite app_assoc|]; reflexivity.
Qed.

Lemma split_collapse f repl :
  f NL = false -> ~ In NL repl ->
  forall (s : str) b,
    split NL (collapse f repl b s)
    = collapse f repl b (hd [] (split NL s))
      :: List.map (collapse f repl false) (tl (split NL s)).
Proof.
  intros Hf Hrepl. induction s as [|x t IH]; intros b; [reflexivity|].
  destruct (N.eqb x NL) eqn:Hx.
  - apply N.eqb_eq in Hx; subst x. cbn [collapse]. rewrite Hf.
    rewrite !split_cons_NL, IH. cbn [hd tl collapse List.map].
    destruct (split NL t) eqn:Ht; [exfalso; exact (split_not_nil _ _ Ht)|].
    reflexivity.
  - rewrite (split_cons_other x t Hx). cbn [hd tl collapse].
    destruct (f x).
    + rewrite split_app_nosep, IH; cbn [hd tl].
      * reflexivity.
      * destruct b; [intros [] | exact Hrepl].
    + rewrite (split_cons_other x _ Hx), IH. reflexivity.
Qed.

Lemma split_collapse_map f repl (s : str) :
  f NL = false -> ~ In NL repl ->
  split NL (collapse f repl false s)
  = List.map (collapse f repl false) (split NL s).
Proof.
  intros Hf Hrepl. rewrite (split_collapse f repl Hf Hrepl).
  destruct (split NL s) eqn:H; [exfalso; exact (split_not_nil _ _ H)|].
  reflexivity.
Qed.

(** *** Stripping *)

Lemma dropwhile_decomp f (s : str) :
  exists p, s = p ++ dropwhile f s /\ forallb f p = true.
Proof.
  induction s as [|x t (p & Hp & Hf)]; [exists []; split; reflexivity|].
  simpl. destruct (f x) eqn:Hx.
  - exists (x :: p). simpl. rewrite Hx, Hf. split; [f_equal; exact Hp | reflexivity].
  - exists []. split; reflexivity.
Qed.

Lemma dropwhile_head f (s : str) :
  match dropwhile f s with [] => True | c :: _ => f c = false end.
Proof.
  induction s as [|x t IH]; simpl; [exact I|].
  destruct (f x) eqn:Hx; [exact IH | exact Hx].
Qed.

Lemma dropwhile_fixed f (s : str) :
  match s with [] => True | c :: _ => f c = false end -> dropwhile f s = s.
Proof. destruct s as [|x t]; simpl; [reflexivity|]. intros ->; reflexivity. Qed.

Lemma dropwhile_idem f (s : str) : dropwhile f (dropwhile f s) = dropwhile f s.
Proof. apply dropwhile_fixed, dropwhile_head. Qed.

Lemma rstrip_prefix (s : str) : exists r, s = rstrip s ++ r.
Proof.
  unfold rstrip. destruct (dropwhile_decomp isspace (rev s)) as (p & Hp & _).
  exists (rev p). rewrite <- rev_app_distr, <- Hp. symmetry; apply rev_involutive.
Qed.

Lemma In_strip (l : str) c : In c (strip l) -> In c l.
Proof.
  unfold strip, lstrip, rstrip. intros H.
  apply In_dropwhile in H. apply in_rev in H.
  apply In_dropwhile in H. apply in_rev in H. exact H.
Qed.

Lemma strip_idem (s : str) : strip (strip s) = strip s.
Proof.
  unfold strip, lstrip.
  assert (Hr : rstrip (dropwhile isspace (rstrip s)) = dropwhile isspace (rstrip s)).
  { unfold rstrip. set (D := dropwhile isspace (rev s)).
    set (y := dropwhile isspace (rev D)).
    destruct (dropwhile_decomp isspace (rev D)) as (p & Hp & _). fold y in Hp.
    assert (HD : D = rev y ++ rev p).
    { rewrite <- rev_app_distr, <- Hp. symmetry; apply rev_involutive. }
    rewrite (dropwhile_fixed isspace (rev y)); [apply rev_involutive|].
    pose proof (dropwhile_head isspace (rev s)) as Hh. fold D in Hh.
    destruct (rev y) as [|c u]; [exact I|].
    rewrite HD in Hh. exact Hh. }
  rewrite Hr. apply dropwhile_idem.
Qed.

Lemma no_double_strip f (s : str) :
  no_double f false s = true -> no_double f false (strip s) = true.
Proof.
  intros H. unfold strip, lstrip. apply no_double_dropwhile.
  destruct (rstrip_prefix s) as (r & Hr). rewrite Hr in H.
  apply no_double_prefix with r, H.
Qed.

(** *** One line *)

Lemma normalize_line_no_tab l : ~ In TAB (normalize_line l).
Proof.
  unfold normalize_line. intros H. apply In_strip in H.
  apply In_collapse in H. destruct H as [[H|[]]|[H _]]; [discriminate|].
  apply In_collapse in H. destruct H as [[H|[]]|[_ H]]; discriminate.
Qed.

Lemma normalize_line_no_double l :
  no_double is_space false (normalize_line l) = true.
Proof.
  unfold normalize_line. apply no_double_strip.
  apply collapse_no_double. reflexivity.
Qed.

Lemma normalize_line_stripped l : strip (normalize_line l) = normalize_line l.
Proof. apply strip_idem. Qed.

Lemma normalize_line_no_NL l : ~ In NL l -> ~ In NL (normalize_line l).
Proof.
  unfold normalize_line. intros Hl H. apply In_strip in H.
  apply In_collapse in H. destruct H as [[H|[]]|[H _]]; [discriminate|].
  apply In_collapse in H. destruct H as [[H|[]]|[H _]]; [discriminate|].
  exact (Hl H).
Qed.

Lemma normalize_line_idem l : normalize_line (normalize_line l) = normalize_line l.
Proof.
  assert (Ht : forallb (fun c => negb (is_tab c)) (normalize_line l) = true).
  { apply forallb_forall. intros c Hc.
    destruct (is_tab c) eqn:Ht; [|reflexivity].
    apply N.eqb_eq in Ht; subst c.
    exfalso; exact (normalize_line_no_tab l Hc). }
  unfold normalize_line at 1.
  rewrite (@collapse_none is_tab [SPACE] (normalize_line l) Ht false).
  rewrite (@collapse_single is_space SPACE (normalize_line l)
             (fun x Hx => proj1 (N.eqb_eq x SPACE) Hx) false
             (normalize_line_no_double l)).
  apply normalize_line_stripped.
Qed.

(** *** The whole text *)

Lemma normalize_status_lines s :
  normalize_status s = join NL (List.map normalize_line (split NL s)).
Proof.
  rewrite normalize_status_eq.
  rewrite !split_collapse_map; try reflexivity; try (intros [H|[]]; discriminate).
  rewrite !map_map. reflexivity.
Qed.

Lemma normalized_lines s :
  split NL (normalize_status s) = List.map normalize_line (split NL s).
Proof.
  rewrite normalize_status_lines. apply split_join.
  - intros H. apply map_eq_nil in H. exact (split_not_nil _ _ H).
  - apply Forall_map. eapply Forall_impl; [|apply split_lines_no_NL].
    intros l. apply normalize_line_no_NL.
Qed.

Lemma normalize_status_idem s :
  normalize_status (normalize_status s) = normalize_status s.
Proof.
  rewrite (normalize_status_lines (normalize_status s)), normalized_lines.
  rewrite map_map, normalize_status_lines. f_equal.
  apply map_ext. intros l; apply normalize_line_idem.
Qed.

(** The device list of a status text, line by line. *)
Lemma devices_by_line s :
  devices_of_status s
  = flat_map (fun l => line_device (normalize_line l)) (split NL s).
Proof.
  unfold devices_of_status.
  rewrite extract_devices_lines, normalized_lines.
  induction (split NL s) as [|l ls IH]; simpl; [|rewrite IH]; reflexivity.
Qed.

Lemma no_newline_iff (s : str) : no_newline s = true <-> ~ In NL s.
Proof.
  unfold no_newline. rewrite forallb_forall. split.
  - intros H Hin. specialize (H NL Hin). discriminate.
  - intros H c Hc. destruct (N.eqb c NL) eqn:Hx; [|reflexivity].
    apply N.eqb_eq in Hx; subst c. contradiction.
Qed.

Lemma extract_devices_line l : ~ In NL l -> extract_devices l = line_device l.
Proof.
  intros Hl. rewrite extract_devices_lines, (split_no_sep l Hl).
  simpl. apply app_nil_r.
Qed.

Lemma devices_of_line l :
  ~ In NL l -> devices_of_status l = line_device (normalize_line l).
Proof.
  intros Hl. rewrite devices_by_line, (split_no_sep l Hl).
  simpl. apply app_nil_r.
Qed.

Lemma startswith_app (p t : str) : startswith p (p ++ t) = true.
Proof.
  induction p as [|x p IH]; [reflexivity|]. simpl.
  rewrite N.eqb_refl. exact IH.
Qed.

Lemma device_line_prefix l d : device_line l d -> startswith (lit "/dev/") l = true.
Proof.
  intros (st & n1 & n2 & n3 & -> & Hd & _).
  apply is_device_path_iff in Hd. destruct Hd as (t & -> & _).
  rewrite <- app_assoc. apply startswith_app.
Qed.

(** *** Fields and gaps *)

Lemma collapse_field f repl (w X : str) :
  forallb (fun c => negb (f c)) w = true -> w <> [] ->
  forall b, collapse f repl b (w ++ X) = w ++ collapse f repl false X.
Proof.
  induction w as [|x w IH]; intros Hw Hne b; [congruence|].
  simpl in *. apply andb_true_iff in Hw. destruct Hw as [Hx Hw].
  destruct (f x); [discriminate|]. f_equal.
  destruct w as [|y w]; [reflexivity|]. apply IH; [exact Hw | discriminate].
Qed.

Lemma collapse_gap f repl (g Y : str) :
  (match Y with [] => true | y :: _ => negb (f y) end) = true ->
  forall b, collapse f repl b (g ++ Y)
            = collapse f repl b g ++ collapse f repl false Y.
Proof.
  intros HY. induction g as [|x g IH]; intros b.
  - simpl. destruct b; [apply collapse_flag, HY | reflexivity].
  - simpl. destruct (f x); rewrite IH; [rewrite app_assoc|]; reflexivity.
Qed.

Lemma collapse_spaced f repl items tail :
  Forall (fun it => snd it <> [] /\ forallb (fun c => negb (f c)) (snd it) = true)
         items ->
  collapse f repl false (spaced items tail)
  = spaced (List.map (fun it => (collapse f repl false (fst it), snd it)) items)
           (collapse f repl false tail).
Proof.
  induction 1 as [|[g w] items [Hne Hw] _ IH]; [reflexivity|].
  cbn [spaced List.map fst snd] in *.
  rewrite collapse_gap.
  - rewrite (@collapse_field f repl w _ Hw Hne), IH. reflexivity.
  - destruct w as [|y w]; [congruence|]. simpl in *.
    apply andb_true_iff in Hw. apply Hw.
Qed.

Lemma tabs_of_blank g :
  forallb blank g = true ->
  forall b, forallb is_space (collapse is_tab [SPACE] b g) = true
            /\ (b = false -> g <> [] -> collapse is_tab [SPACE] b g <> []).
Proof.
  induction g as [|x g IH]; intros Hg b; [split; [reflexivity | congruence]|].
  simpl in *. apply andb_true_iff in Hg. destruct Hg as [Hx Hg].
  destruct (is_tab x) eqn:Ht.
  - destruct (IH Hg true) as [Hs _]. split.
    + rewrite forallb_app, Hs. destruct b; reflexivity.
    + intros -> _. discriminate.
  - destruct (IH Hg false) as [Hs _]. unfold blank in Hx. rewrite Ht in Hx.
    simpl in *. rewrite Hx, Hs. split; [reflexivity | discriminate].
Qed.

Lemma squash_of_spaces g :
  forallb is_space g = true ->
  collapse is_space [SPACE] true g = []
  /\ collapse is_space [SPACE] false g = match g with [] => [] | _ => [SPACE] end.
Proof.
  induction g as [|x g IH]; intros Hg; [split; reflexivity|].
  simpl in *. apply andb_true_iff in Hg. destruct Hg as [Hx Hg].
  rewrite Hx. destruct (IH Hg) as [-> _]. split; reflexivity.
Qed.

Lemma squash_tabs_gap g :
  is_gap g = true ->
  collapse is_space [SPACE] false (collapse is_tab [SPACE] false g) = [SPACE].
Proof.
  intros Hg. assert (Hb : forallb blank g = true /\ g <> []).
  { destruct g; [discriminate | split; [exact Hg | discriminate]]. }
  destruct Hb as [Hb Hne].
  destruct (tabs_of_blank g Hb false) as [Hs Hn].
  rewrite (proj2 (squash_of_spaces _ Hs)).
  destruct (collapse is_tab [SPACE] false g); [|reflexivity].
  exfalso; apply (Hn eq_refl Hne); reflexivity.
Qed.

Lemma squash_tabs_blank g :
  forallb blank g = true ->
  forallb isspace (collapse is_space [SPACE] false (collapse is_tab [SPACE] false g))
  = true.
Proof.
  intros Hb. destruct (tabs_of_blank g Hb false) as [Hs _].
  rewrite (proj2 (squash_of_spaces _ Hs)).
  destruct (collapse is_tab [SPACE] false g); reflexivity.
Qed.

Lemma spaced_single (items : list (str * str)) tail :
  Forall (fun it => fst it = [SPACE]) items ->
  spaced items tail = flat_map (fun it => SPACE :: snd it) items ++ tail.
Proof.
  induction 1 as [|[g w] items Hg _ IH]; [reflexivity|].
  cbn [spaced flat_map fst snd] in *. subst g. rewrite IH.
  simpl. rewrite <- app_assoc. reflexivity.
Qed.

Lemma is_field_iff w :
  is_field w = true <-> w <> [] /\ forallb (fun c => negb (isspace c)) w = true.
Proof.
  destruct w as [|c w]; simpl.
  - split; [discriminate | intros [H _]; congruence].
  - split; [intros H; split; [discriminate | exact H] | intros [_ H]; exact H].
Qed.

Lemma field_without f w :
  (forall c, f c = true -> isspace c = true) ->
  is_field w = true -> forallb (fun c => negb (f c)) w = true.
Proof.
  intros Hf Hw. apply is_field_iff in Hw. destruct Hw as [_ Hw].
  rewrite forallb_forall in *. intros c Hc. specialize (Hw c Hc).
  destruct (f c) eqn:Hfc; [|reflexivity]. rewrite (Hf c Hfc) in Hw. discriminate.
Qed.

Lemma is_tab_isspace c : is_tab c = true -> isspace c = true.
Proof. intros H. apply N.eqb_eq in H; subst c. reflexivity. Qed.

Lemma is_space_isspace c : is_space c = true -> isspace c = true.
Proof. intros H. apply N.eqb_eq in H; subst c. reflexivity. Qed.

Lemma dropwhile_app_all f (p X : str) :
  forallb f p = true -> dropwhile f (p ++ X) = dropwhile f X.
Proof.
  induction p as [|x p IH]; intros Hp; [reflexivity|].
  simpl in *. apply andb_true_iff in Hp. destruct Hp as [-> Hp]. apply IH, Hp.
Qed.

Lemma forallb_rev (f : char -> bool) (s : str) : forallb f (rev s) = forallb f s.
Proof.
  destruct (forallb f s) eqn:H.
  - rewrite forallb_forall in *. intros c Hc. apply H, in_rev, Hc.
  - destruct (forallb f (rev s)) eqn:H'; [|reflexivity].
    rewrite forallb_forall in H'.
    assert (forallb f s = true)
      by (apply forallb_forall; intros c Hc; apply H'; rewrite <- in_rev; exact Hc).
    congruence.
Qed.

Lemma strip_core (pre body post : str) :
  forallb isspace pre = true -> forallb isspace post = true ->
  starts_unspaced body -> ends_unspaced body ->
  strip (pre ++ body ++ post) = body.
Proof.
  intros Hpre Hpost Hs He. unfold strip, lstrip, rstrip.
  rewrite app_assoc, rev_app_distr.
  rewrite dropwhile_app_all by (rewrite forallb_rev; exact Hpost).
  rewrite rev_app_distr.
  rewrite (dropwhile_fixed isspace (rev body ++ rev pre)).
  - rewrite rev_app_distr, !rev_involutive.
    rewrite dropwhile_app_all by exact Hpre.
    apply dropwhile_fixed. destruct body; [exact I | exact Hs].
  - unfold ends_unspaced in He. destruct (rev body); [contradiction | exact He].
Qed.

Lemma field_end (pre w : str) : is_field w = true -> ends_unspaced (pre ++ w).
Proof.
  intros Hw. apply is_field_iff in Hw. destruct Hw as [Hne Hw].
  unfold ends_unspaced. rewrite rev_app_distr.
  destruct (rev w) as [|c u] eqn:Hr.
  - exfalso. apply Hne. rewrite <- (rev_involutive w), Hr. reflexivity.
  - simpl. rewrite forallb_forall in Hw.
    assert (Hc : In c w) by (apply in_rev; rewrite Hr; left; reflexivity).
    specialize (Hw c Hc). destruct (isspace c); [discriminate | reflexivity].
Qed.

Lemma fields_end (items : list (str * str)) :
  Forall (fun it => is_field (snd it) = true) items ->
  forall pre, ends_unspaced pre ->
    ends_unspaced (pre ++ flat_map (fun it => SPACE :: snd it) items).
Proof.
  induction 1 as [|[g w] items Hw _ IH]; intros pre Hpre.
  - simpl. rewrite app_nil_r. exact Hpre.
  - cbn [flat_map snd] in *. rewrite app_assoc. apply IH.
    change (SPACE :: w) with ([SPACE] ++ w). rewrite app_assoc.
    apply field_end, Hw.
Qed.

(** Fields separated by runs of tabs and spaces normalize to the fields
    one space apart. *)
Lemma normalize_fields g0 f1 (items : list (str * str)) tail :
  forallb blank g0 = true -> is_field f1 = true ->
  forallb (fun it => is_gap (fst it) && is_field (snd it)) items = true ->
  forallb blank tail = true ->
  normalize_line (g0 ++ f1 ++ spaced items tail)
  = f1 ++ flat_map (fun it => SPACE :: snd it) items.
Proof.
  intros Hg0 Hf1 Hitems Htail. unfold normalize_line.
  change (g0 ++ f1 ++ spaced items tail) with (spaced ((g0, f1) :: items) tail).
  assert (Hall : Forall (fun it => is_field (snd it) = true) ((g0, f1) :: items)).
  { constructor; [exact Hf1|]. apply Forall_forall. intros it Hit.
    rewrite forallb_forall in Hitems. specialize (Hitems it Hit).
    apply andb_true_iff in Hitems. apply Hitems. }
  rewrite (collapse_spaced is_tab).
  2:{ eapply Forall_impl; [|exact Hall]. intros it Hit. split.
      - apply is_field_iff in Hit. apply Hit.
      - apply field_without; [exact is_tab_isspace | exact Hit]. }
  rewrite (collapse_spaced is_space).
  2:{ apply Forall_map. eapply Forall_impl; [|exact Hall]. intros it Hit.
      cbn [snd]. split.
      - apply is_field_iff in Hit. apply Hit.
      - apply field_without; [exact is_space_isspace | exact Hit]. }
  rewrite map_map. cbn [List.map spaced fst snd].
  rewrite spaced_single.
  2:{ apply Forall_map, Forall_forall. intros it Hit. cbn [fst].
      rewrite forallb_forall in Hitems. specialize (Hitems it Hit).
      apply andb_true_iff in Hitems. apply squash_tabs_gap, Hitems. }
  rewrite flat_map_concat_map, map_map, <- flat_map_concat_map. cbn [snd].
  rewrite (app_assoc f1).
  apply strip_core.
  - apply squash_tabs_blank, Hg0.
  - apply squash_tabs_blank, Htail.
  - apply is_field_iff in Hf1. destruct Hf1 as [Hne Hf1].
    destruct f1 as [|c f1]; [congruence|]. simpl in *.
    apply andb_true_iff in Hf1. destruct Hf1 as [Hc _].
    destruct (isspace c); [discriminate | reflexivity].
  - apply fields_end.
    + inversion Hall; assumption.
    + apply (field_end [] f1 Hf1).
Qed.

(** *** Device lines with any spacing *)

Lemma disk_char_range c : disk_char c = true -> (45 <= c <= 122)%N.
Proof.
  unfold disk_char.
  rewrite !orb_true_iff, !andb_true_iff, !N.leb_le, !N.eqb_eq. lia.
Qed.

Lemma disk_char_unspaced c : disk_char c = true -> isspace c = false.
Proof.
  intros H. apply disk_char_range in H. unfold isspace.
  replace (c <=? 13)%N with false by (symmetry; apply N.leb_gt; lia).
  replace (c <=? 32)%N with false by (symmetry; apply N.leb_gt; lia).
  replace (8192 <=? c)%N with false by (symmetry; apply N.leb_gt; lia).
  repeat match goal with
  | |- context [(c =? ?k)%N] =>
      replace (c =? k)%N with false by (symmetry; apply N.eqb_neq; lia)
  end.
  rewrite !andb_false_r. reflexivity.
Qed.

Lemma disk_chars_field w :
  w <> [] -> forallb disk_char w = true -> is_field w = true.
Proof.
  intros Hne Hw. apply is_field_iff. split; [exact Hne|].
  rewrite forallb_forall in *. intros c Hc.
  rewrite (disk_char_unspaced c (Hw c Hc)). reflexivity.
Qed.

Lemma device_path_field d : is_device_path d = true -> is_field d = true.
Proof.
  intros H. apply disk_chars_field; [|apply device_path_chars, H].
  apply is_device_path_iff in H. destruct H as (t & -> & _). discriminate.
Qed.

Lemma state_field st : is_state st = true -> is_field st = true.
Proof.
  intros H. apply disk_chars_field; [|apply state_chars, H].
  apply is_state_iff in H. unfold states in H. simpl in H.
  repeat (destruct H as [<-|H]; [discriminate|]). contradiction.
Qed.

Lemma number_field n : is_number n = true -> is_field n = true.
Proof.
  intros H. apply disk_chars_field; [|apply number_chars, H].
  destruct n; discriminate.
Qed.

Lemma no_newline_app (a b : str) :
  no_newline (a ++ b) = no_newline a && no_newline b.
Proof. apply forallb_app. Qed.

Lemma blank_no_newline g : forallb blank g = true -> no_newline g = true.
Proof.
  apply forallb_weaken. intros c Hc. unfold blank in Hc.
  apply orb_true_iff in Hc. destruct Hc as [Hc|Hc]; apply N.eqb_eq in Hc;
    subst c; reflexivity.
Qed.

Lemma gap_blank g : is_gap g = true -> forallb blank g = true.
Proof. destruct g; [discriminate | auto]. Qed.

Lemma field_no_newline w : is_field w = true -> no_newline w = true.
Proof.
  intros H. apply is_field_iff in H. destruct H as [_ H]. revert H.
  apply forallb_weaken. intros c Hc.
  destruct (N.eqb c NL) eqn:Hn; [|reflexivity].
  apply N.eqb_eq in Hn; subst c. discriminate.
Qed.

(** A device line whose fields are separated by any runs of tabs and
    spaces, with such runs before and after, yields its device. *)
Lemma spaced_device_line g0 g1 g2 g3 g4 tail d st n1 n2 n3 :
  forallb blank g0 = true -> is_gap g1 = true -> is_gap g2 = true ->
  is_gap g3 = true -> is_gap g4 = true -> forallb blank tail = true ->
  is_device_path d = true -> is_state st = true ->
  is_number n1 = true -> is_number n2 = true -> is_number n3 = true ->
  let raw := g0 ++ d ++ g1 ++ st ++ g2 ++ n1 ++ g3 ++ n2 ++ g4 ++ n3 ++ tail in
  normalize_status raw
  = d ++ SPACE :: st ++ SPACE :: n1 ++ SPACE :: n2 ++ SPACE :: n3
  /\ devices_of_status raw = [d].
Proof.
  intros Hg0 Hg1 Hg2 Hg3 Hg4 Htail Hd Hst Hn1 Hn2 Hn3 raw.
  pose proof (device_path_field d Hd) as Fd.
  pose proof (state_field st Hst) as Fst.
  pose proof (number_field n1 Hn1) as F1.
  pose proof (number_field n2 Hn2) as F2.
  pose proof (number_field n3 Hn3) as F3.
  assert (Hraw : ~ In NL raw).
  { apply no_newline_iff. unfold raw. rewrite !no_newline_app.
    rewrite (blank_no_newline g0 Hg0), (blank_no_newline tail Htail).
    rewrite (blank_no_newline g1 (gap_blank g1 Hg1)).
    rewrite (blank_no_newline g2 (gap_blank g2 Hg2)).
    rewrite (blank_no_newline g3 (gap_blank g3 Hg3)).
    rewrite (blank_no_newline g4 (gap_blank g4 Hg4)).
    rewrite (field_no_newline d Fd), (field_no_newline st Fst).
    rewrite (field_no_newline n1 F1), (field_no_newline n2 F2).
    rewrite (field_no_newline n3 F3). reflexivity. }
  assert (Hnorm : normalize_line raw
                  = d ++ SPACE :: st ++ SPACE :: n1 ++ SPACE :: n2 ++ SPACE :: n3).
  { change raw with (g0 ++ d ++ spaced [(g1, st); (g2, n1); (g3, n2); (g4, n3)] tail).
    rewrite normalize_fields; try assumption.
    - simpl. rewrite app_nil_r. reflexivity.
    - simpl. rewrite Hg1, Hg2, Hg3, Hg4, Fst, F1, F2, F3. reflexivity. }
  split.
  - rewrite normalize_status_lines, (split_no_sep raw Hraw). simpl. exact Hnorm.
  - rewrite (devices_of_line raw Hraw), Hnorm.
    assert (Hdl : device_line
              (d ++ SPACE :: st ++ SPACE :: n1 ++ SPACE :: n2 ++ SPACE :: n3) d).
    { exists st, n1, n2, n3. repeat split; assumption. }
    apply line_device_Some; [apply device_line_no_NL with d|]; exact Hdl.
Qed.

(** ** The classifier of one device *)

Section Classifier.

Variable E : Env.

Lemma is_rotational_found fuel x text :
  file E (rotational_file x) = Some text ->
  is_rotational E (S fuel) x =
    if Str.eqb (take1 text) (lit "1") then Ret true
    else if Str.eqb (take1 text) (lit "0") then Ret false
    else Raise (UnknownValue (rotational_file x)).
Proof. intros H; simpl; rewrite H; reflexivity. Qed.

Lemma is_rotational_missing fuel x :
  file E (rotational_file x) = None ->
  is_rotational E (S fuel) x =
    if Str.eqb (base_disk_for_block_device E x) x
    then Raise (CouldNotFindFile (rotational_file x))
    else is_rotational E fuel (base_disk_for_block_device E x).
Proof.
  intros H; simpl; rewrite H.
  destruct (Str.eqb (base_disk_for_block_device E x) x); reflexivity.
Qed.

(** More frames never change an outcome that was reached. *)
Lemma is_rotational_mono fuel :
  forall x extra, is_rotational E fuel x <> Deep ->
    is_rotational E (fuel + extra) x = is_rotational E fuel x.
Proof.
  induction fuel as [|n IH]; intros x extra H.
  - simpl in H; congruence.
  - simpl in *. destruct (file E (rotational_file x)); [reflexivity|].
    destruct (negb (Str.eqb (base_disk_for_block_device E x) x)); [|reflexivity].
    apply IH, H.
Qed.

End Classifier.

(** ** The pool classifier: helper facts *)

Lemma comprehension_Ret {A B} (f : A -> outcome B) (l : list A) (bs : list B) :
  comprehension f l = Ret bs <-> Forall2 (fun a b => f a = Ret b) l bs.
Proof.
  revert bs; induction l as [|a l IH]; intros bs; simpl.
  - split.
    + intros H; injection H as <-; constructor.
    + intros H; inversion H; reflexivity.
  - split.
    + destruct (f a) as [b| |] eqn:Ha; simpl; try discriminate.
      destruct (comprehension f l) as [bs'| |] eqn:Hl; simpl; try discriminate.
      intros H; injection H as <-. constructor; [assumption|].
      apply IH; reflexivity.
    + intros H; inversion H as [|a' b l' bs' Hab Hrest]; subst.
      rewrite Hab; simpl.
      apply IH in Hrest; rewrite Hrest; reflexivity.
Qed.

Lemma comprehension_map {A B} (f : A -> outcome B) (g : A -> B) (l : list A) :
  (forall a, In a l -> f a = Ret (g a)) ->
  comprehension f l = Ret (List.map g l).
Proof.
  intros H; apply comprehension_Ret.
  induction l as [|a l IH]; simpl; constructor.
  - apply H; left; reflexivity.
  - apply IH; intros a' Ha'; apply H; right; assumption.
Qed.

Lemma Forall2_Ret_fun {A B} (f : A -> outcome B) (l : list A) (bs : list B) (d : B) :
  Forall2 (fun a b => f a = Ret b) l bs ->
  bs = List.map (fun a => match f a with Ret b => b | _ => d end) l.
Proof.
  induction 1 as [|a b l bs Hab _ IH]; simpl; [reflexivity|].
  rewrite Hab, <- IH; reflexivity.
Qed.

Lemma no_True_in (bs : list bool) :
  negb (existsb (Bool.eqb true) bs) = forallb negb bs.
Proof.
  induction bs as [|b bs IH]; simpl; [reflexivity|].
  rewrite negb_orb, IH; destruct b; reflexivity.
Qed.

Lemma forallb_of_map {A B} (g : A -> B) (p : B -> bool) (l : list A) :
  forallb p (List.map g l) = forallb (fun a => p (g a)) l.
Proof. induction l as [|a l IH]; simpl; [|rewrite IH]; reflexivity. Qed.

Lemma forallb_same_elements {A} (p : A -> bool) (l1 l2 : list A) :
  (forall a, In a l1 <-> In a l2) -> forallb p l1 = forallb p l2.
Proof.
  intros H.
  destruct (forallb p l1) eqn:H1; symmetry.
  - rewrite forallb_forall in *. intros a Ha; apply H1, H, Ha.
  - destruct (forallb p l2) eqn:H2; [|reflexivity].
    rewrite forallb_forall in H2.
    assert (forallb p l1 = true) by (apply forallb_forall; intros a Ha; apply H2, H, Ha).
    congruence.
Qed.

Lemma list_set_nil (order : PySet) : list_set order [] = [].
Proof.
  destruct (list_set order []) as [|x l] eqn:H; [reflexivity|].
  exfalso. apply (proj1 (list_set_In order [] x)). rewrite H; left; reflexivity.
Qed.

Section PoolClassifier.

Variable E : Env.

#[local] Abbreviation base_disk := (base_disk_for_block_device E).

Lemma all_solid_state_eq fuel devices :
  all_solid_state E fuel devices =
    bind (comprehension (is_rotational E fuel) (base_disks E devices))
         (fun rotationals => Ret (forallb negb rotationals)).
Proof.
  unfold all_solid_state, base_disks.
  destruct (comprehension _ _); simpl; try reflexivity.
  rewrite no_True_in; reflexivity.
Qed.

(** The classifier returns a value exactly when every base disk is
    classified, and the value is the conjunction of the negated flags. *)
Lemma all_solid_state_Ret fuel devices b :
  all_solid_state E fuel devices = Ret b <->
  exists rot : str -> bool,
    (forall d, In d (List.map base_disk devices) ->
               is_rotational E fuel d = Ret (rot d))
    /\ b = forallb (fun d => negb (rot d)) (List.map base_disk devices).
Proof.
  rewrite all_solid_state_eq. split.
  - destruct (comprehension _ _) as [bs| |] eqn:Hc; simpl; try discriminate.
    intros H; injection H as <-.
    apply comprehension_Ret in Hc.
    pose proof (Forall2_Ret_fun _ false Hc) as Hbs.
    set (rot := fun d => match is_rotational E fuel d with Ret r => r | _ => false end) in *.
    exists rot. split.
    + intros d Hd. apply (list_set_In (pyset E)) in Hd. fold (base_disks E devices) in Hd.
      clear Hbs. induction Hc as [|a r l rs Har _ IH]; [contradiction|].
      destruct Hd as [->|Hd]; [|apply IH, Hd].
      unfold rot; rewrite Har; reflexivity.
    + rewrite Hbs, forallb_of_map.
      apply forallb_same_elements. intros d; apply (list_set_In (pyset E)).
  - intros (rot & Hrot & ->).
    rewrite (comprehension_map (is_rotational E fuel) rot).
    + simpl. rewrite forallb_of_map.
      f_equal. apply forallb_same_elements. intros d; apply (list_set_In (pyset E)).
    + intros d Hd; apply Hrot, (list_set_In (pyset E)), Hd.
Qed.

(** More frames keep a value the classifier returned. *)
Lemma all_solid_state_mono fuel extra devices b :
  all_solid_state E fuel devices = Ret b ->
  all_solid_state E (fuel + extra) devices = Ret b.
Proof.
  rewrite !all_solid_state_Ret. intros (rot & Hrot & ->).
  exists rot. split; [|reflexivity].
  intros d Hd. specialize (Hrot d Hd).
  rewrite is_rotational_mono; [exact Hrot|]. rewrite Hrot; discriminate.
Qed.

(** The iteration order of sets does not change a value the classifier
    returns. *)
Lemma is_rotational_with_pyset order fuel :
  forall x, is_rotational (with_pyset E order) fuel x = is_rotational E fuel x.
Proof.
  induction fuel as [|n IH]; intros x; [reflexivity|].
  simpl. destruct (file E (rotational_file x)); [reflexivity|].
  change (base_disk_for_block_device (with_pyset E order) x)
    with (base_disk_for_block_device E x).
  destruct (negb (Str.eqb (base_disk_for_block_device E x) x)); [apply IH | reflexivity].
Qed.

End PoolClassifier.

Lemma all_solid_state_with_pyset E order fuel devices b :
  all_solid_state (with_pyset E order) fuel devices = Ret b <->
  all_solid_state E fuel devices = Ret b.
Proof.
  rewrite !all_solid_state_Ret.
  split; intros (rot & Hrot & ->); exists rot; (split; [|reflexivity]);
    intros d Hd; specialize (Hrot d Hd);
    rewrite is_rotational_with_pyset in *; exact Hrot.
Qed.


(** * Properties of the script *)

(** ** The pool classifier *)

(** C1. For a pool name, [zpool_is_pure_solid_state] returns [True] exactly
    when the device list is obtained and every distinct base disk of it is
    classified as not rotational; when every base disk is classified, the
    result is the conjunction of "not rotational" over the deduplicated base
    disks; the value returned depends only on the set of base disks, not on
    the order of the devices, on repeated devices or on the order in which
    the set is visited; and more frames keep the value. *)
Theorem zpool_is_pure_solid_state_iff (E : Env) (fuel : nat) (name : str) :
  (zpool_is_pure_solid_state E fuel (PyStr name) = Ret true <->
   exists devices,
     block_devices_for_pool E (PyStr name) = Ret devices
     /\ Forall (fun d => is_rotational E fuel d = Ret false) (base_disks E devices))
  /\ (forall devices (rot : str -> bool),
        block_devices_for_pool E (PyStr name) = Ret devices ->
        (forall d, In d (base_disks E devices) -> is_rotational E fuel d = Ret (rot d)) ->
        zpool_is_pure_solid_state E fuel (PyStr name)
        = Ret (forallb (fun d => negb (rot d)) (base_disks E devices)))
  /\ (forall devices1 devices2 b,
        (forall d, In d (List.map (base_disk_for_block_device E) devices1)
                   <-> In d (List.map (base_disk_for_block_device E) devices2)) ->
        all_solid_state E fuel devices1 = Ret b <->
        all_solid_state E fuel devices2 = Ret b)
  /\ (forall (order : PySet) b,
        zpool_is_pure_solid_state (with_pyset E order) fuel (PyStr name) = Ret b <->
        zpool_is_pure_solid_state E fuel (PyStr name) = Ret b)
  /\ (forall extra b,
        zpool_is_pure_solid_state E fuel (PyStr name) = Ret b ->
        zpool_is_pure_solid_state E (fuel + extra) (PyStr name) = Ret b).
Proof.
  unfold zpool_is_pure_solid_state; simpl.
  split; [|split; [|split; [|split]]].
  - split.
    + destruct (block_devices_for_pool E (PyStr name)) as [devices| |];
        simpl; try discriminate.
      intros H. exists devices. split; [reflexivity|].
      apply all_solid_state_Ret in H. destruct H as (rot & Hrot & Hb).
      symmetry in Hb. rewrite forallb_forall in Hb.
      apply Forall_forall. intros d Hd.
      apply (proj1 (list_set_In (pyset E) _ d)) in Hd.
      rewrite (Hrot d Hd). f_equal.
      specialize (Hb d Hd). destruct (rot d); [discriminate|reflexivity].
    + intros (devices & -> & Hall); simpl.
      rewrite Forall_forall in Hall.
      apply all_solid_state_Ret. exists (fun _ => false). split.
      * intros d Hd. apply Hall, (list_set_In (pyset E)), Hd.
      * symmetry; apply forallb_forall; reflexivity.
  - intros devices rot -> Hrot; simpl.
    apply all_solid_state_Ret. exists rot. split.
    + intros d Hd. apply Hrot, (list_set_In (pyset E)), Hd.
    + apply forallb_same_elements. intros d; apply (list_set_In (pyset E)).
  - intros devices1 devices2 b Hsame.
    rewrite !all_solid_state_Ret.
    split; intros (rot & Hrot & ->); exists rot; split;
      try (intros d Hd; apply Hrot, Hsame, Hd);
      apply forallb_same_elements; intros d; specialize (Hsame d); tauto.
  - intros order b.
    change (block_devices_for_pool (with_pyset E order) (PyStr name))
      with (block_devices_for_pool E (PyStr name)).
    destruct (block_devices_for_pool E (PyStr name)) as [devices| |]; simpl;
      [apply all_solid_state_with_pyset | tauto | tauto].
  - intros extra b.
    destruct (block_devices_for_pool E (PyStr name)) as [devices| |]; simpl;
      [apply all_solid_state_mono | discriminate | discriminate].
Qed.

(** The scenarios of the specification on the machine [demo]: two
    solid-state disks behind links, a mirror with one rotational disk, two
    partitions of one disk, and a pool that is not imported. *)
Example demo_pools :
  zpool_is_pure_solid_state demo 2 (PyStr (lit "fast")) = Ret true
  /\ zpool_is_pure_solid_state demo 2 (PyStr (lit "mixed")) = Ret false
  /\ zpool_is_pure_solid_state demo 2 (PyStr (lit "twice")) = Ret true
  /\ zpool_is_pure_solid_state demo 2 (PyStr (lit "absent"))
     = Raise (DidNotReturnSuccessfully (lit "absent")).
Proof. repeat split; vm_compute; reflexivity. Qed.

(** C5. When the device list of the pool is empty, the classifier returns
    [True] and raises nothing. *)
Theorem empty_device_list_is_solid_state (E : Env) (fuel : nat) (pool : pyval) :
  block_devices_for_pool E pool = Ret [] ->
  zpool_is_pure_solid_state E fuel pool = Ret true.
Proof.
  intros H. unfold zpool_is_pure_solid_state.
  destruct (isinstance_str pool) eqn:Hs; simpl.
  - rewrite H; simpl. unfold all_solid_state; simpl.
    rewrite list_set_nil; reflexivity.
  - unfold block_devices_for_pool in H. rewrite Hs in H; discriminate.
Qed.

Lemma empty_device_list_is_solid_state_witness :
  block_devices_for_pool demo (PyStr (lit "empty")) = Ret []
  /\ zpool_is_pure_solid_state demo 0 (PyStr (lit "empty")) = Ret true.
Proof.
  split; [reflexivity|].
  apply (@empty_device_list_is_solid_state demo 0 (PyStr (lit "empty"))).
  reflexivity.
Defined.

(** ** The pool-status fetcher *)

(** C4, as the code has it.  For a pool that is not a string,
    [zpool_status] returns [None] without starting the query and raises
    nothing; the invalid-argument exception comes from its callers
    [block_devices_for_pool] and [zpool_is_pure_solid_state].  Every string,
    the empty one included, is handed to the query, whose outcome decides. *)
Theorem non_string_pool (E : Env) (fuel : nat) (timeout : Z) (pool : pyval) :
  isinstance_str pool = false ->
  zpool_status E pool timeout = Ret None
  /\ block_devices_for_pool E pool = Raise (CannotGetBlockdevices (type_repr pool))
  /\ zpool_is_pure_solid_state E fuel pool = Raise (CannotCheckPool (type_repr pool))
  /\ (forall name,
        zpool_status E (PyStr name) timeout =
          match popen E [lit "zpool"; lit "status"; lit "-P"; name]
                  (if (0 <? timeout)%Z then Some timeout else None) with
          | TimeoutExpired => Raise (DidNotReturnInTime timeout name)
          | Exited 0 (Some text) => Ret (Some text)
          | Exited 0 None => Raise UnicodeDecodeError
          | Exited _ _ => Raise (DidNotReturnSuccessfully name)
          end).
Proof.
  intros H.
  unfold block_devices_for_pool, zpool_is_pure_solid_state; rewrite H; simpl.
  repeat split.
  - destruct pool; simpl in *; try reflexivity; discriminate.
  - intros name. destruct (popen E _ _) as [|rc out]; [reflexivity|].
    destruct rc; reflexivity.
Qed.

Lemma non_string_pool_witness :
  isinstance_str (PyInt 3) = false
  /\ zpool_status demo (PyInt 3) (-1) = Ret None.
Proof.
  split; [reflexivity|].
  apply (@non_string_pool demo 0 (-1)%Z (PyInt 3)). reflexivity.
Defined.

(** C4 as stated fails: the fetcher returns a value for the integer 3. *)
Lemma zpool_status_of_int_returns :
  zpool_status demo (PyInt 3) (-1) = Ret None
  /\ ~ (exists e, zpool_status demo (PyInt 3) (-1) = Raise e).
Proof.
  split; [reflexivity|]. intros [e He]; discriminate He.
Qed.

(** ** The rotational classifier *)

(** C8. When the flag file exists, the classifier reads at most one
    character of it and ends in one of three ways: [True] for ['1'], [False]
    for ['0'], and the unknown-value exception for anything else, an empty
    read included. *)
Theorem is_rotational_reads_flag (E : Env) (fuel : nat) (x text : str) :
  file E (rotational_file x) = Some text ->
  length (take1 text) <= 1
  /\ (take1 text = lit "1" -> is_rotational E (S fuel) x = Ret true)
  /\ (take1 text = lit "0" -> is_rotational E (S fuel) x = Ret false)
  /\ (take1 text <> lit "1" -> take1 text <> lit "0" ->
      is_rotational E (S fuel) x = Raise (UnknownValue (rotational_file x)))
  /\ (text = [] ->
      is_rotational E (S fuel) x = Raise (UnknownValue (rotational_file x))).
Proof.
  intros H. rewrite (is_rotational_found E fuel x H).
  split; [|split; [|split; [|split]]].
  - unfold take1. destruct text; simpl; lia.
  - intros ->; reflexivity.
  - intros ->; reflexivity.
  - intros H1 H0.
    apply str_eqb_neq in H1, H0. rewrite H1, H0; reflexivity.
  - intros ->; reflexivity.
Qed.

Lemma is_rotational_reads_flag_witness :
  file demo (rotational_file (lit "/dev/sdb")) = Some (lit "1" ++ [NL])
  /\ is_rotational demo 1 (lit "/dev/sdb") = Ret true.
Proof.
  split; [reflexivity|].
  apply (@is_rotational_reads_flag demo 0 (lit "/dev/sdb") (lit "1" ++ [NL]));
    reflexivity.
Defined.

(** C2, as the code has it.  When the flag file is missing the classifier
    resolves the path to its base disk and calls itself on the result
    whenever it differs from the path, at every path; it raises the
    file-not-found exception when the result is the path itself.  Where
    base-disk resolution is idempotent at the path there is at most one such
    retry: two frames always reach an outcome, and more frames give the same
    one.  Elsewhere one retry need not be enough: some path needs a third
    frame. *)
Theorem is_rotational_retry (E : Env) (x : str) :
  (forall fuel,
     file E (rotational_file x) = None ->
     base_disk_for_block_device E x <> x ->
     is_rotational E (S fuel) x
     = is_rotational E fuel (base_disk_for_block_device E x))
  /\ (forall fuel,
        file E (rotational_file x) = None ->
        base_disk_for_block_device E x = x ->
        is_rotational E (S fuel) x = Raise (CouldNotFindFile (rotational_file x)))
  /\ (base_disk_for_block_device E (base_disk_for_block_device E x)
      = base_disk_for_block_device E x ->
      is_rotational E 2 x <> Deep
      /\ (forall extra, is_rotational E (2 + extra) x = is_rotational E 2 x))
  /\ (exists y,
        is_rotational demo 2 y = Deep
        /\ is_rotational demo 3 y
           = Raise (CouldNotFindFile (lit "/sys/block/pts/queue/rotational"))).
Proof.
  split; [|split; [|split]].
  - intros fuel Hx Hne.
    rewrite (is_rotational_missing E fuel x Hx).
    apply str_eqb_neq in Hne; rewrite Hne; reflexivity.
  - intros fuel Hx Hfix.
    rewrite (is_rotational_missing E fuel x Hx), Hfix, str_eqb_refl; reflexivity.
  - intros Hidem.
    assert (Hend : is_rotational E 2 x <> Deep).
    { destruct (file E (rotational_file x)) as [text|] eqn:Hx.
      - rewrite (is_rotational_found E 1 x Hx).
        destruct (Str.eqb _ _); [discriminate|].
        destruct (Str.eqb _ _); discriminate.
      - rewrite (is_rotational_missing E 1 x Hx).
        destruct (Str.eqb _ x); [discriminate|].
        set (d := base_disk_for_block_device E x) in *.
        destruct (file E (rotational_file d)) as [text|] eqn:Hd.
        + rewrite (is_rotational_found E 0 d Hd).
          destruct (Str.eqb _ _); [discriminate|].
          destruct (Str.eqb _ _); discriminate.
        + rewrite (is_rotational_missing E 0 d Hd).
          rewrite Hidem, str_eqb_refl; discriminate. }
    split; [exact Hend|].
    intros extra. apply is_rotational_mono, Hend.
  - exists (lit "/dev/pts/0"). split; vm_compute; reflexivity.
Qed.

Lemma is_rotational_retry_witness :
  base_disk_for_block_device demo (base_disk_for_block_device demo (lit "/dev/sda1"))
  = base_disk_for_block_device demo (lit "/dev/sda1")
  /\ is_rotational demo 2 (lit "/dev/sda1") <> Deep
  /\ file demo (rotational_file (lit "/dev/sda1")) = None
  /\ base_disk_for_block_device demo (lit "/dev/sda1") <> lit "/dev/sda1"
  /\ is_rotational demo 2 (lit "/dev/sda1")
     = is_rotational demo 1 (base_disk_for_block_device demo (lit "/dev/sda1")).
Proof.
  split; [vm_compute; reflexivity|].
  split.
  - apply (proj1 (proj2 (proj2 (@is_rotational_retry demo (lit "/dev/sda1"))))).
    vm_compute; reflexivity.
  - split; [reflexivity|].
    split; [vm_compute; intros H; discriminate H|].
    apply (proj1 (@is_rotational_retry demo (lit "/dev/sda1")) 1).
    + reflexivity.
    + vm_compute; intros H; discriminate H.
Defined.

(** C2 as stated fails: for [/dev/pts/0] on a machine without symbolic
    links the flag file is missing three times in a row and the path is
    resolved twice ([/dev/pts/], then [/dev/pts]), so the call and one retry
    do not reach an outcome; the second retry does. *)
Lemma is_rotational_retries_twice :
  file demo (rotational_file (lit "/dev/pts/0")) = None
  /\ base_disk_for_block_device demo (lit "/dev/pts/0") = lit "/dev/pts/"
  /\ file demo (rotational_file (lit "/dev/pts/")) = None
  /\ base_disk_for_block_device demo (lit "/dev/pts/") = lit "/dev/pts"
  /\ is_rotational demo 2 (lit "/dev/pts/0") = Deep
  /\ is_rotational demo 3 (lit "/dev/pts/0")
     = Raise (CouldNotFindFile (lit "/sys/block/pts/queue/rotational")).
Proof. repeat split; vm_compute; reflexivity. Qed.

(** On a machine where two dangling links point at each other's partitions
    no number of frames suffices. *)
Lemma is_rotational_never_ends (n : nat) :
  is_rotational looped n (lit "/dev/a") = Deep
  /\ is_rotational looped n (lit "/dev/b") = Deep.
Proof.
  induction n as [|n [IHa IHb]]; [split; reflexivity|].
  split.
  - rewrite is_rotational_missing by reflexivity.
    replace (base_disk_for_block_device looped (lit "/dev/a")) with (lit "/dev/b")
      by (vm_compute; reflexivity).
    exact IHb.
  - rewrite is_rotational_missing by reflexivity.
    replace (base_disk_for_block_device looped (lit "/dev/b")) with (lit "/dev/a")
      by (vm_compute; reflexivity).
    exact IHa.
Qed.

(** ** Base-disk resolution *)

(** C3, as the code has it.  Base-disk resolution applied twice gives the
    same as applied once at every path whose canonical form holds no
    newline and whose base disk is already canonical; stripping the final
    digits of the base disk once more changes nothing. *)
Theorem base_disk_idempotent (E : Env) (x : str) :
  no_newline (realpath E x) = true ->
  realpath E (base_disk_for_block_device E x) = base_disk_for_block_device E x ->
  sub false number_eol [] (base_disk_for_block_device E x)
  = base_disk_for_block_device E x
  /\ base_disk_for_block_device E (base_disk_for_block_device E x)
     = base_disk_for_block_device E x.
Proof.
  intros Hnl Hreal.
  assert (Hs : sub false number_eol [] (base_disk_for_block_device E x)
               = base_disk_for_block_device E x).
  { rewrite sub_number_eol, base_disk_eq.
    apply strip_number_idem, no_newline_iff, Hnl. }
  split; [exact Hs|].
  unfold base_disk_for_block_device at 1. rewrite Hreal. exact Hs.
Qed.

Lemma base_disk_idempotent_witness :
  no_newline (realpath demo (lit "/dev/disk/by-id/ata-A-part1")) = true
  /\ base_disk_for_block_device demo (lit "/dev/disk/by-id/ata-A-part1")
     = lit "/dev/sda"
  /\ realpath demo (lit "/dev/sda") = lit "/dev/sda"
  /\ base_disk_for_block_device demo
       (base_disk_for_block_device demo (lit "/dev/disk/by-id/ata-A-part1"))
     = base_disk_for_block_device demo (lit "/dev/disk/by-id/ata-A-part1").
Proof.
  split; [reflexivity|]. split; [vm_compute; reflexivity|].
  split; [vm_compute; reflexivity|].
  apply (@base_disk_idempotent demo (lit "/dev/disk/by-id/ata-A-part1"));
    vm_compute; reflexivity.
Defined.

(** C3 as stated fails: on a machine without symbolic links the base disk
    of [/dev/pts/0] is [/dev/pts/], whose base disk is [/dev/pts]. *)
Lemma base_disk_not_idempotent :
  base_disk_for_block_device demo (lit "/dev/pts/0") = lit "/dev/pts/"
  /\ base_disk_for_block_device demo (lit "/dev/pts/") = lit "/dev/pts"
  /\ base_disk_for_block_device demo
       (base_disk_for_block_device demo (lit "/dev/pts/0"))
     <> base_disk_for_block_device demo (lit "/dev/pts/0").
Proof.
  split; [vm_compute; reflexivity|]. split; [vm_compute; reflexivity|].
  vm_compute. intros H; discriminate H.
Qed.

(** Stripping alone is not idempotent either when the path holds a
    newline: [$] also matches before a final newline. *)
Lemma strip_number_newline :
  sub false number_eol [] (lit "1" ++ NL :: lit "2") = lit "1" ++ [NL]
  /\ sub false number_eol [] (lit "1" ++ [NL]) = [NL].
Proof. split; vm_compute; reflexivity. Qed.

(** ** The parser *)

(** C6. A line without newline is matched exactly when it reads
    [device-path state n1 n2 n3], one space apart, with the device path
    [/dev/] followed by letters, digits, ['/'], ['_'] and ['-'], the state
    one of the six states and the counters non-empty digit sequences; the
    match yields the device path, and a line that does not start with
    [/dev/] yields nothing. *)
Theorem line_grammar (line : str) :
  no_newline line = true ->
  (forall d, extract_devices line = [d] <-> device_line line d)
  /\ (extract_devices line = [] <-> forall d, ~ device_line line d)
  /\ (startswith (lit "/dev/") line = false -> extract_devices line = [])
  /\ extract_devices (lit "/dev/sda ONLINE 0 0 0") = [lit "/dev/sda"]
  /\ extract_devices (lit "pool1 ONLINE 0 0 0") = [].
Proof.
  intros Hnl. apply no_newline_iff in Hnl.
  rewrite (extract_devices_line line Hnl).
  split; [|split; [|split; [|split]]].
  - intros d. apply line_device_iff, Hnl.
  - apply line_device_nil_iff, Hnl.
  - intros Hp. apply line_device_nil_iff; [exact Hnl|].
    intros d Hd. apply device_line_prefix in Hd. congruence.
  - vm_compute; reflexivity.
  - vm_compute; reflexivity.
Qed.

Lemma line_grammar_witness :
  no_newline (lit "/dev/sdb DEGRADED 3 0 1") = true
  /\ (extract_devices (lit "/dev/sdb DEGRADED 3 0 1") = [lit "/dev/sdb"]
      <-> device_line (lit "/dev/sdb DEGRADED 3 0 1") (lit "/dev/sdb")).
Proof.
  split; [reflexivity|].
  apply (@line_grammar (lit "/dev/sdb DEGRADED 3 0 1")). reflexivity.
Defined.

(** C10. A line [/dev/ state n1 n2 n3] with nothing after the prefix
    [/dev/] is matched, and the device path returned is [/dev/] itself. *)
Theorem empty_device_name (st n1 n2 n3 : str) :
  is_state st = true ->
  is_number n1 = true -> is_number n2 = true -> is_number n3 = true ->
  let line := lit "/dev/" ++ SPACE :: st ++ SPACE :: n1 ++ SPACE :: n2 ++ SPACE :: n3 in
  device_line line (lit "/dev/")
  /\ extract_devices line = [lit "/dev/"]
  /\ devices_of_status line = [lit "/dev/"]
  /\ devices_of_status (lit "/dev/ ONLINE 0 0 0") = [lit "/dev/"].
Proof.
  intros Hst Hn1 Hn2 Hn3 line.
  assert (Hd : device_line line (lit "/dev/")).
  { exists st, n1, n2, n3. repeat split; assumption. }
  pose proof (device_line_no_NL Hd) as Hnl.
  split; [exact Hd|]. split; [|split].
  - rewrite (extract_devices_line _ Hnl). apply line_device_Some; assumption.
  - pose proof (@spaced_device_line [] [SPACE] [SPACE] [SPACE] [SPACE] []
                  (lit "/dev/") st n1 n2 n3 eq_refl eq_refl eq_refl eq_refl
                  eq_refl eq_refl eq_refl Hst Hn1 Hn2 Hn3) as [_ H].
    rewrite app_nil_r in H. exact H.
  - vm_compute; reflexivity.
Qed.

Lemma empty_device_name_witness :
  is_state (lit "UNAVAIL") = true
  /\ is_number (lit "12") = true /\ is_number (lit "0") = true
  /\ is_number (lit "7") = true
  /\ extract_devices (lit "/dev/ UNAVAIL 12 0 7") = [lit "/dev/"].
Proof.
  repeat (split; [reflexivity|]).
  apply (@empty_device_name (lit "UNAVAIL") (lit "12") (lit "0") (lit "7"));
    reflexivity.
Defined.

(** C7. Parsing a text and parsing its normalized form give the same
    devices; the normalized form is a fixed point of normalization, each of
    its lines is the normalized line of the text, free of tabs, of adjacent
    spaces and of whitespace at its ends; a device line whose fields are
    separated by any runs of tabs and spaces, with such runs before and
    after, normalizes to the fields one space apart and parses like that
    form; the example line does. *)
Theorem whitespace_tolerance (text : str) :
  devices_of_status text = devices_of_status (normalize_status text)
  /\ normalize_status (normalize_status text) = normalize_status text
  /\ split NL (normalize_status text) = List.map normalize_line (split NL text)
  /\ Forall (fun l => ~ In TAB l
                      /\ no_double is_space false l = true
                      /\ strip l = l)
            (split NL (normalize_status text))
  /\ (forall g0 g1 g2 g3 g4 tail d st n1 n2 n3,
        forallb blank g0 = true -> is_gap g1 = true -> is_gap g2 = true ->
        is_gap g3 = true -> is_gap g4 = true -> forallb blank tail = true ->
        is_device_path d = true -> is_state st = true ->
        is_number n1 = true -> is_number n2 = true -> is_number n3 = true ->
        let raw := g0 ++ d ++ g1 ++ st ++ g2 ++ n1 ++ g3 ++ n2 ++ g4 ++ n3 ++ tail in
        let normal := d ++ SPACE :: st ++ SPACE :: n1 ++ SPACE :: n2 ++ SPACE :: n3 in
        normalize_status raw = normal
        /\ devices_of_status raw = devices_of_status normal
        /\ devices_of_status raw = [d])
  /\ normalize_status (TAB :: lit "/dev/sdb" ++ TAB :: lit "DEGRADED   3  0   1")
     = lit "/dev/sdb DEGRADED 3 0 1"
  /\ devices_of_status (TAB :: lit "/dev/sdb" ++ TAB :: lit "DEGRADED   3  0   1")
     = devices_of_status (lit "/dev/sdb DEGRADED 3 0 1").
Proof.
  assert (Hsame : forall t, devices_of_status t = devices_of_status (normalize_status t)).
  { intros t. unfold devices_of_status. rewrite normalize_status_idem. reflexivity. }
  split; [apply Hsame|]. split; [|split; [|split; [|split; [|split]]]].
  - apply normalize_status_idem.
  - apply normalized_lines.
  - rewrite normalized_lines. apply Forall_map, Forall_forall. intros l _.
    split; [apply normalize_line_no_tab|].
    split; [apply normalize_line_no_double | apply normalize_line_stripped].
  - intros g0 g1 g2 g3 g4 tail d st n1 n2 n3
      Hg0 Hg1 Hg2 Hg3 Hg4 Htail Hd Hst Hn1 Hn2 Hn3 raw normal.
    destruct (@spaced_device_line g0 g1 g2 g3 g4 tail d st n1 n2 n3
                Hg0 Hg1 Hg2 Hg3 Hg4 Htail Hd Hst Hn1 Hn2 Hn3) as [Hn Hdev].
    fold raw in Hn, Hdev. fold normal in Hn.
    split; [exact Hn|]. split; [|exact Hdev].
    rewrite (Hsame raw), Hn. reflexivity.
  - vm_compute; reflexivity.
  - vm_compute; reflexivity.
Qed.

(** C9. The parser is a total function of the status text.  A line
    yields its device exactly when its normalized form is a device line, and
    nothing otherwise; the device list of a text is the concatenation, in the
    order of the lines, of what each line yields, so that a matching line
    that occurs twice gives its device twice; the empty text and a text
    without matching line give the empty list; and the parser adds no
    exception to [block_devices_for_pool]. *)
Theorem devices_in_file_order :
  devices_of_status [] = []
  /\ (forall l d, no_newline l = true ->
        (devices_of_status l = [d] <-> device_line (normalize_line l) d))
  /\ (forall l, no_newline l = true ->
        (devices_of_status l = [] <-> forall d, ~ device_line (normalize_line l) d))
  /\ (forall a b,
        devices_of_status (a ++ NL :: b)
        = devices_of_status a ++ devices_of_status b)
  /\ (forall text,
        devices_of_status text = flat_map devices_of_status (split NL text))
  /\ (forall text,
        exists found,
          devices_of_status text = concat found
          /\ Forall2 (fun l r =>
                        (exists d, r = [d] /\ device_line (normalize_line l) d)
                        \/ (r = [] /\ forall d, ~ device_line (normalize_line l) d))
                     (split NL text) found)
  /\ (forall l1 d1 l2 d2,
        no_newline l1 = true -> no_newline l2 = true ->
        device_line (normalize_line l1) d1 -> device_line (normalize_line l2) d2 ->
        devices_of_status (l1 ++ NL :: l2) = [d1; d2]
        /\ devices_of_status (l1 ++ NL :: l1) = [d1; d1])
  /\ (forall text,
        devices_of_status text
        = flat_map (fun l => line_device (normalize_line l)) (split NL text))
  /\ (forall l, no_newline l = true ->
        devices_of_status l = []
        \/ exists d, devices_of_status l = [d] /\ device_line (normalize_line l) d)
  /\ (forall text,
        (forall l d, In l (split NL text) -> ~ device_line (normalize_line l) d) ->
        devices_of_status text = [])
  /\ (forall E name text,
        zpool_status E (PyStr name) (-1) = Ret (Some text) ->
        block_devices_for_pool E (PyStr name) = Ret (devices_of_status text)).
Proof.
  assert (Hone : forall l d, no_newline l = true ->
            (devices_of_status l = [d] <-> device_line (normalize_line l) d)).
  { intros l d Hl. apply no_newline_iff in Hl.
    rewrite (devices_of_line l Hl).
    apply line_device_iff, normalize_line_no_NL, Hl. }
  assert (Hnone : forall l, no_newline l = true ->
            (devices_of_status l = [] <-> forall d, ~ device_line (normalize_line l) d)).
  { intros l Hl. apply no_newline_iff in Hl.
    rewrite (devices_of_line l Hl).
    apply line_device_nil_iff, normalize_line_no_NL, Hl. }
  assert (Happ : forall a b,
            devices_of_status (a ++ NL :: b)
            = devices_of_status a ++ devices_of_status b).
  { intros a b. rewrite !devices_by_line, split_app. apply flat_map_app. }
  assert (Hlines : forall text, Forall (fun l => no_newline l = true) (split NL text)).
  { intros text. eapply Forall_impl; [|apply split_lines_no_NL].
    intros l. apply no_newline_iff. }
  split; [reflexivity|]. split; [exact Hone|]. split; [exact Hnone|].
  split; [exact Happ|].
  split; [|split; [|split; [|split; [|split; [|split]]]]].
  - intros text. rewrite devices_by_line.
    specialize (Hlines text).
    induction (split NL text) as [|l ls IH]; [reflexivity|].
    inversion Hlines as [|? ? Hl Hls]; subst. cbn [flat_map].
    apply no_newline_iff in Hl. rewrite (devices_of_line l Hl), (IH Hls).
    reflexivity.
  - intros text. rewrite devices_by_line.
    specialize (Hlines text).
    induction (split NL text) as [|l ls IH].
    + exists []. split; [reflexivity | constructor].
    + inversion Hlines as [|? ? Hl Hls]; subst.
      destruct (IH Hls) as (found & Hf & HF).
      exists (line_device (normalize_line l) :: found).
      cbn [flat_map concat]. rewrite Hf. split; [reflexivity|].
      constructor; [|exact HF].
      apply no_newline_iff in Hl.
      pose proof (normalize_line_no_NL l Hl) as Hn.
      destruct (line_device_inv _ Hn) as [H0|(d & H1 & Hd)].
      * right. split; [exact H0|]. apply line_device_nil_iff; assumption.
      * left. exists d. split; assumption.
  - intros l1 d1 l2 d2 Hl1 Hl2 Hd1 Hd2.
    rewrite !Happ.
    rewrite (proj2 (Hone l1 d1 Hl1) Hd1), (proj2 (Hone l2 d2 Hl2) Hd2).
    split; reflexivity.
  - apply devices_by_line.
  - intros l Hl. apply no_newline_iff in Hl.
    rewrite (devices_of_line l Hl).
    apply line_device_inv, normalize_line_no_NL, Hl.
  - intros text H. rewrite devices_by_line.
    pose proof (split_lines_no_NL text) as Hnl. rewrite Forall_forall in Hnl.
    induction (split NL text) as [|l ls IH]; [reflexivity|].
    simpl. rewrite IH.
    + rewrite app_nil_r. apply line_device_nil_iff.
      * apply normalize_line_no_NL, Hnl. left; reflexivity.
      * intros d. apply H. left; reflexivity.
    + intros l' d Hl'. apply H. right; exact Hl'.
    + intros l' Hl'. apply Hnl. right; exact Hl'.
  - intros E name text H. unfold block_devices_for_pool. simpl isinstance_str.
    cbn [negb]. rewrite H. reflexivity.
Qed.

(** * Further properties of the script *)

(** ** Base-disk resolution: what is stripped *)

Lemma last_cons (x : char) (t : str) d : t <> [] -> last (x :: t) d = last t d.
Proof. destruct t; [congruence | reflexivity]. Qed.

Lemma last_app (a b : str) d : b <> [] -> last (a ++ b) d = last b d.
Proof.
  intros Hb. induction a as [|x a IH]; [reflexivity|].
  cbn [app]. rewrite last_cons; [exact IH|].
  destruct a; [exact Hb | discriminate].
Qed.

Lemma ends_subject_cases tail : ends_subject tail = true -> tail = [] \/ tail = [NL].
Proof.
  destruct tail as [|c [|d t]]; simpl; intros H; [left; reflexivity| |].
  - rewrite andb_true_r in H. apply N.eqb_eq in H. subst c. right; reflexivity.
  - rewrite andb_false_r in H. discriminate.
Qed.

Lemma strip_number_digits ds tail :
  forallb digit ds = true -> ends_subject tail = true ->
  strip_number (ds ++ tail) = tail.
Proof.
  intros Hds Htail.
  assert (Hdrop : dropwhile digit tail = tail).
  { destruct (ends_subject_cases tail Htail) as [->| ->]; reflexivity. }
  destruct ds as [|x t].
  - destruct (ends_subject_cases tail Htail) as [->| ->]; reflexivity.
  - simpl in Hds. apply andb_true_iff in Hds. destruct Hds as [Hx Ht].
    cbn [app strip_number]. rewrite Hx.
    rewrite (dropwhile_app_all digit t tail Ht), Hdrop, Htail. reflexivity.
Qed.

Lemma dropwhile_stem (t Y : str) :
  t <> [] -> ends_in_digit t = false -> Y <> [] ->
  ends_subject (dropwhile digit (t ++ Y)) = false.
Proof.
  unfold ends_in_digit. induction t as [|x t IH]; intros Hne Hend HY; [congruence|].
  destruct t as [|y t'].
  - simpl in Hend. simpl. rewrite Hend. simpl.
    destruct Y; [congruence|]. apply andb_false_r.
  - rewrite last_cons in Hend by discriminate.
    cbn [app dropwhile]. destruct (digit x).
    + apply IH; [discriminate | exact Hend | exact HY].
    + simpl. apply andb_false_r.
Qed.

Lemma strip_number_stem stem ds tail :
  ends_in_digit stem = false -> is_number ds = true -> ends_subject tail = true ->
  strip_number (stem ++ ds ++ tail) = stem ++ tail.
Proof.
  intros Hstem Hds Htail.
  assert (Hd : forallb digit ds = true /\ ds <> []).
  { destruct ds; [discriminate | split; [exact Hds | discriminate]]. }
  destruct Hd as [Hd Hne]. revert Hstem.
  induction stem as [|x t IH]; intros Hstem.
  - cbn [app]. apply strip_number_digits; assumption.
  - cbn [app strip_number].
    assert (Hc : digit x && ends_subject (dropwhile digit (t ++ ds ++ tail)) = false).
    { destruct t as [|y t'].
      - unfold ends_in_digit in Hstem. simpl in Hstem. rewrite Hstem. reflexivity.
      - rewrite dropwhile_stem; [apply andb_false_r | discriminate | |].
        + unfold ends_in_digit in *. rewrite last_cons in Hstem by discriminate.
          exact Hstem.
        + destruct ds; [congruence | discriminate]. }
    rewrite Hc. f_equal. apply IH.
    destruct t as [|y t']; [reflexivity|].
    unfold ends_in_digit in *. rewrite last_cons in Hstem by discriminate.
    exact Hstem.
Qed.

(** X1. When the canonical path reads [stem], then a non-empty run of
    digits, then nothing or one final newline, and [stem] does not end in a
    digit, the base disk is [stem] (with the newline kept): the whole final
    digit run goes, for a partition and for a whole disk alike. *)
Theorem base_disk_of_numbered (E : Env) (x stem ds tail : str) :
  realpath E x = stem ++ ds ++ tail ->
  ends_in_digit stem = false -> is_number ds = true ->
  ends_subject tail = true ->
  base_disk_for_block_device E x = stem ++ tail.
Proof.
  intros Hreal Hstem Hds Htail.
  rewrite base_disk_eq, Hreal. apply strip_number_stem; assumption.
Qed.

Lemma base_disk_of_numbered_witness :
  realpath demo (lit "/dev/disk/by-id/ata-C-part1") = lit "/dev/sdc" ++ lit "1" ++ []
  /\ base_disk_for_block_device demo (lit "/dev/disk/by-id/ata-C-part1")
     = lit "/dev/sdc" ++ [].
Proof.
  split; [reflexivity|].
  apply (@base_disk_of_numbered demo (lit "/dev/disk/by-id/ata-C-part1")
           (lit "/dev/sdc") (lit "1") []); reflexivity.
Defined.

Lemma strip_number_prefix s :
  ~ In NL s -> exists ds, s = strip_number s ++ ds /\ forallb digit ds = true.
Proof.
  induction s as [|x t IH]; intros Hn; [exists []; split; reflexivity|].
  assert (Hnt : ~ In NL t) by (intros H; apply Hn; right; exact H).
  cbn [strip_number].
  destruct (digit x && ends_subject (dropwhile digit t)) eqn:Hc.
  - apply andb_true_iff in Hc. destruct Hc as [Hx Hend].
    apply ends_subject_no_NL in Hend;
      [|intros H; apply Hnt, (In_dropwhile digit t NL H)].
    rewrite Hend. exists (x :: t). split; [reflexivity|].
    simpl. rewrite Hx. apply dropwhile_nil_forallb, Hend.
  - destruct (IH Hnt) as (ds & Ht & Hds). exists ds.
    split; [cbn [app]; f_equal; exact Ht | exact Hds].
Qed.

Lemma strip_number_end s : ~ In NL s -> ends_in_digit (strip_number s) = false.
Proof.
  unfold ends_in_digit.
  induction s as [|x t IH]; intros Hn; [reflexivity|].
  assert (Hnt : ~ In NL t) by (intros H; apply Hn; right; exact H).
  cbn [strip_number].
  destruct (digit x && ends_subject (dropwhile digit t)) eqn:Hc.
  - apply andb_true_iff in Hc. destruct Hc as [_ Hend].
    apply ends_subject_no_NL in Hend;
      [|intros H; apply Hnt, (In_dropwhile digit t NL H)].
    rewrite Hend. reflexivity.
  - destruct (strip_number t) as [|y r] eqn:Hr.
    + simpl. destruct (digit x) eqn:Hx; [|reflexivity].
      destruct (strip_number_all_digits t Hnt) as [_ Ht]; [rewrite Hr; reflexivity|].
      apply dropwhile_nil_forallb in Ht. rewrite Ht in Hc. discriminate.
    + rewrite last_cons by discriminate. apply IH, Hnt.
Qed.

(** X2. For a canonical path without newline, the base disk is the
    canonical path without its final run of digits: what is cut off is
    digits only, what is left does not end in a digit, and a canonical path
    that does not end in a digit is its own base disk. *)
Theorem base_disk_maximal_run (E : Env) (x : str) :
  no_newline (realpath E x) = true ->
  (exists ds,
     realpath E x = base_disk_for_block_device E x ++ ds
     /\ forallb digit ds = true)
  /\ ends_in_digit (base_disk_for_block_device E x) = false
  /\ (ends_in_digit (realpath E x) = false ->
      base_disk_for_block_device E x = realpath E x).
Proof.
  intros Hnl. apply no_newline_iff in Hnl. rewrite base_disk_eq.
  destruct (strip_number_prefix _ Hnl) as (ds & Hs & Hds).
  split; [exists ds; split; assumption|].
  split; [apply strip_number_end, Hnl|].
  intros Hend. destruct ds as [|d ds'].
  - rewrite app_nil_r in Hs. symmetry; exact Hs.
  - exfalso. unfold ends_in_digit in Hend. rewrite Hs in Hend.
    rewrite last_app in Hend by discriminate.
    assert (Hin : In (last (d :: ds') 0%N) (d :: ds')).
    { clear. revert d. induction ds' as [|e r IH]; intros d; [left; reflexivity|].
      rewrite last_cons by discriminate. right. apply IH. }
    rewrite forallb_forall in Hds. rewrite (Hds _ Hin) in Hend. discriminate.
Qed.

Lemma base_disk_maximal_run_witness :
  no_newline (realpath demo (lit "/dev/sda12")) = true
  /\ ends_in_digit (base_disk_for_block_device demo (lit "/dev/sda12")) = false.
Proof.
  split; [reflexivity|].
  apply (@base_disk_maximal_run demo (lit "/dev/sda12")). reflexivity.
Defined.

(** ** The rotational classifier along its fallbacks *)

Lemma chain_S E n x :
  chain E (S n) x = falls_back E x && chain E n (base_disk_for_block_device E x).
Proof.
  unfold chain. cbn [seq forallb resolve]. f_equal.
  rewrite <- seq_shift, forallb_of_map. reflexivity.
Qed.

Lemma is_rotational_falls_back E fuel x :
  falls_back E x = true ->
  is_rotational E (S fuel) x = is_rotational E fuel (base_disk_for_block_device E x).
Proof.
  unfold falls_back. intros H. cbn [is_rotational].
  destruct (file E (rotational_file x)); [discriminate|]. rewrite H. reflexivity.
Qed.

(** X3. When the classifier falls back on the path and on each of the
    next [n - 1] paths that base-disk resolution gives, classifying the path
    is classifying the [n]-th resolved path, at the price of [n] frames; with
    [n] frames or fewer it does not end. *)
Theorem is_rotational_chain (E : Env) (n : nat) (x : str) :
  chain E n x = true ->
  (forall fuel, is_rotational E (n + fuel) x = is_rotational E fuel (resolve E n x))
  /\ (forall m, m <= n -> is_rotational E m x = Deep).
Proof.
  revert x. induction n as [|n IH]; intros x Hc.
  - split; [reflexivity|]. intros m Hm. replace m with 0 by lia. reflexivity.
  - rewrite chain_S in Hc. apply andb_true_iff in Hc. destruct Hc as [Hx Hc].
    destruct (IH _ Hc) as [IH1 IH2]. split.
    + intros fuel. cbn [Nat.add resolve].
      rewrite (is_rotational_falls_back E (n + fuel) x Hx). apply IH1.
    + intros [|m] Hm; [reflexivity|].
      rewrite (is_rotational_falls_back E m x Hx). apply IH2. lia.
Qed.

Lemma is_rotational_chain_witness :
  chain demo 2 (lit "/dev/pts/0") = true
  /\ is_rotational demo (2 + 1) (lit "/dev/pts/0")
     = is_rotational demo 1 (resolve demo 2 (lit "/dev/pts/0")).
Proof.
  split; [vm_compute; reflexivity|].
  apply (@is_rotational_chain demo 2 (lit "/dev/pts/0")). vm_compute; reflexivity.
Defined.

(** X4. A value the classifier returns is read from a flag file: after
    some fallbacks (fewer than the frames given) the flag file of the
    resolved path exists and its first character is ['1'] for [True] and
    ['0'] for [False]. *)
Theorem is_rotational_value (E : Env) (fuel : nat) (x : str) (b : bool) :
  is_rotational E fuel x = Ret b ->
  exists n text,
    n < fuel /\ chain E n x = true
    /\ file E (rotational_file (resolve E n x)) = Some text
    /\ take1 text = (if b then lit "1" else lit "0").
Proof.
  revert x. induction fuel as [|fuel IH]; intros x H; [discriminate|].
  destruct (file E (rotational_file x)) as [text|] eqn:Hf.
  - rewrite (is_rotational_found E fuel x Hf) in H.
    exists 0, text. split; [lia|]. split; [reflexivity|]. split; [exact Hf|].
    destruct (Str.eqb (take1 text) (lit "1")) eqn:H1.
    + injection H as <-. apply str_eqb_eq, H1.
    + destruct (Str.eqb (take1 text) (lit "0")) eqn:H0; [|discriminate].
      injection H as <-. apply str_eqb_eq, H0.
  - rewrite (is_rotational_missing E fuel x Hf) in H.
    destruct (Str.eqb (base_disk_for_block_device E x) x) eqn:He; [discriminate|].
    destruct (IH _ H) as (n & text & Hn & Hc & Hfile & Ht).
    exists (S n), text. split; [lia|]. split; [|split; assumption].
    rewrite chain_S, Hc. unfold falls_back. rewrite Hf, He. reflexivity.
Qed.

Lemma is_rotational_value_witness :
  is_rotational demo 2 (lit "/dev/sdb7") = Ret true
  /\ exists n text,
       n < 2 /\ chain demo n (lit "/dev/sdb7") = true
       /\ file demo (rotational_file (resolve demo n (lit "/dev/sdb7"))) = Some text
       /\ take1 text = lit "1".
Proof.
  split; [reflexivity|].
  apply (@is_rotational_value demo 2 (lit "/dev/sdb7") true). reflexivity.
Defined.

(** X5. The classifier raises two exceptions only, and either one names
    the flag file of the path its fallbacks ended on: the file-not-found
    exception when that file is missing and the path is its own base disk,
    the unknown-value exception when the file exists and does not start with
    ['1'] or ['0']. *)
Theorem is_rotational_error (E : Env) (fuel : nat) (x : str) (e : error) :
  is_rotational E fuel x = Raise e ->
  exists n,
    n < fuel /\ chain E n x = true
    /\ ((e = CouldNotFindFile (rotational_file (resolve E n x))
         /\ file E (rotational_file (resolve E n x)) = None
         /\ base_disk_for_block_device E (resolve E n x) = resolve E n x)
        \/ (e = UnknownValue (rotational_file (resolve E n x))
            /\ exists text,
                 file E (rotational_file (resolve E n x)) = Some text
                 /\ take1 text <> lit "1" /\ take1 text <> lit "0")).
Proof.
  revert x. induction fuel as [|fuel IH]; intros x H; [discriminate|].
  destruct (file E (rotational_file x)) as [text|] eqn:Hf.
  - rewrite (is_rotational_found E fuel x Hf) in H.
    destruct (Str.eqb (take1 text) (lit "1")) eqn:H1; [discriminate|].
    destruct (Str.eqb (take1 text) (lit "0")) eqn:H0; [discriminate|].
    injection H as <-. exists 0. split; [lia|]. split; [reflexivity|].
    right. split; [reflexivity|]. exists text.
    split; [exact Hf|]. split; apply str_eqb_neq; assumption.
  - rewrite (is_rotational_missing E fuel x Hf) in H.
    destruct (Str.eqb (base_disk_for_block_device E x) x) eqn:He.
    + injection H as <-. exists 0. split; [lia|]. split; [reflexivity|].
      left. split; [reflexivity|]. split; [exact Hf|]. apply str_eqb_eq, He.
    + destruct (IH _ H) as (n & Hn & Hc & Hcases).
      exists (S n). split; [lia|]. split; [|exact Hcases].
      rewrite chain_S, Hc. unfold falls_back. rewrite Hf, He. reflexivity.
Qed.

Lemma is_rotational_error_witness :
  is_rotational demo 3 (lit "/dev/pts/0")
  = Raise (CouldNotFindFile (lit "/sys/block/pts/queue/rotational"))
  /\ exists n,
       n < 3 /\ chain demo n (lit "/dev/pts/0") = true
       /\ ((CouldNotFindFile (lit "/sys/block/pts/queue/rotational")
            = CouldNotFindFile (rotational_file (resolve demo n (lit "/dev/pts/0")))
            /\ file demo (rotational_file (resolve demo n (lit "/dev/pts/0"))) = None
            /\ base_disk_for_block_device demo (resolve demo n (lit "/dev/pts/0"))
               = resolve demo n (lit "/dev/pts/0"))
           \/ (CouldNotFindFile (lit "/sys/block/pts/queue/rotational")
               = UnknownValue (rotational_file (resolve demo n (lit "/dev/pts/0")))
               /\ exists text,
                    file demo (rotational_file (resolve demo n (lit "/dev/pts/0")))
                    = Some text
                    /\ take1 text <> lit "1" /\ take1 text <> lit "0")).
Proof.
  split; [vm_compute; reflexivity|].
  apply (@is_rotational_error demo 3 (lit "/dev/pts/0")). vm_compute; reflexivity.
Defined.

(** ** The classifier looks at the last component only *)

Lemma after_last_slash_plain name :
  no_slash name = true -> forall acc, after_last_slash acc name = acc ++ name.
Proof.
  induction name as [|c t IH]; intros Hn acc; [symmetry; apply app_nil_r|].
  simpl in *. apply andb_true_iff in Hn. destruct Hn as [Hc Ht].
  destruct (N.eqb c SLASH); [discriminate|].
  rewrite (IH Ht), <- app_assoc. reflexivity.
Qed.

Lemma basename_join dir name :
  no_slash name = true -> basename (dir ++ SLASH :: name) = name.
Proof.
  intros Hn. unfold basename. generalize (@nil char) as acc.
  induction dir as [|c d IH]; intros acc.
  - cbn [app after_last_slash]. rewrite N.eqb_refl.
    apply (after_last_slash_plain name Hn []).
  - cbn [app after_last_slash]. destruct (N.eqb c SLASH); apply IH.
Qed.

(** X6. Where the flag file of a name exists, every path that ends in
    that name is classified like the bare name, whatever its directory part
    and whatever [realpath] says: only the last component is looked at. *)
Theorem is_rotational_by_name (E : Env) (name text : str) :
  no_slash name = true ->
  file E (lit "/sys/block/" ++ name ++ lit "/queue/rotational") = Some text ->
  forall dir fuel,
    is_rotational E (S fuel) (dir ++ SLASH :: name) = is_rotational E 1 name
    /\ is_rotational E 1 name <> Deep.
Proof.
  intros Hn Hf dir fuel.
  assert (Hb : basename name = name) by (apply (after_last_slash_plain name Hn [])).
  assert (H1 : file E (rotational_file name) = Some text).
  { unfold rotational_file. rewrite Hb. exact Hf. }
  assert (H2 : file E (rotational_file (dir ++ SLASH :: name)) = Some text).
  { unfold rotational_file. rewrite (basename_join dir name Hn). exact Hf. }
  rewrite (is_rotational_found E fuel _ H2), (is_rotational_found E 0 _ H1).
  unfold rotational_file. rewrite (basename_join dir name Hn), Hb.
  split; [reflexivity|].
  destruct (Str.eqb _ _); [discriminate|]. destruct (Str.eqb _ _); discriminate.
Qed.

Lemma is_rotational_by_name_witness :
  no_slash (lit "sdb") = true
  /\ is_rotational demo 1 (lit "/mnt/backup" ++ SLASH :: lit "sdb")
     = is_rotational demo 1 (lit "sdb").
Proof.
  split; [reflexivity|].
  apply (@is_rotational_by_name demo (lit "sdb") (lit "1" ++ [NL]));
    reflexivity.
Defined.

(** ** The pool-status fetcher without timeout *)

(** X7. A timeout of zero or less is no timeout: the query then runs
    without one, and once the process has exited the outcome is the one of
    the default timeout, never the timeout exception. *)
Theorem zpool_status_no_timeout (E : Env) (name : str) (timeout rc : Z)
    (out : option str) :
  (timeout <= 0)%Z ->
  popen E [lit "zpool"; lit "status"; lit "-P"; name] None = Exited rc out ->
  zpool_status E (PyStr name) timeout = zpool_status E (PyStr name) (-1)
  /\ (forall t pool, zpool_status E (PyStr name) timeout <> Raise (DidNotReturnInTime t pool)).
Proof.
  intros Ht Hp. unfold zpool_status.
  replace (0 <? timeout)%Z with false by (symmetry; apply Z.ltb_ge; exact Ht).
  change (0 <? -1)%Z with false. cbv iota. rewrite Hp.
  split; [reflexivity|]. intros t pool.
  destruct (negb (rc =? 0)%Z); [discriminate|]. destruct out; discriminate.
Qed.

Lemma zpool_status_no_timeout_witness :
  (0 <= 0)%Z
  /\ zpool_status demo (PyStr (lit "fast")) 0 = zpool_status demo (PyStr (lit "fast")) (-1).
Proof.
  split; [lia|].
  apply (@zpool_status_no_timeout demo (lit "fast") 0 0
           (Some (status_of (lit "fast") (lit "/dev/disk/by-id/ata-A-part1")
                    (lit "/dev/disk/by-id/ata-C-part1"))));
    [lia | reflexivity].
Defined.

(** ** What the parser returns and what it drops *)

Lemma line_device_short l : length (line_device l) <= 1.
Proof.
  unfold line_device. destruct (match_at true line_re (Pos [] l)) as [[p cs]|];
    simpl; lia.
Qed.

Lemma devices_of_status_In text d :
  In d (devices_of_status text) ->
  exists l, In l (split NL text) /\ device_line (normalize_line l) d.
Proof.
  rewrite devices_by_line, in_flat_map. intros (l & Hl & Hd).
  exists l. split; [exact Hl|].
  pose proof (split_lines_no_NL text) as Hnl. rewrite Forall_forall in Hnl.
  pose proof (normalize_line_no_NL l (Hnl l Hl)) as Hn.
  destruct (line_device_inv _ Hn) as [H0|(d' & H1 & Hdl)].
  - rewrite H0 in Hd. contradiction.
  - rewrite H1 in Hd. destruct Hd as [<-|[]]. exact Hdl.
Qed.

Lemma device_line_path l d : device_line l d -> is_device_path d = true.
Proof. intros (st & n1 & n2 & n3 & _ & Hd & _). exact Hd. Qed.

(** X8. Every device [block_devices_for_pool] returns is a device path:
    it starts with [/dev/], holds only letters, digits, ['/'], ['_'] and
    ['-'] after it, and so no whitespace; and there are at most as many
    devices as the status text has lines. *)
Theorem block_devices_are_paths (E : Env) (pool : pyval) (devices : list str) :
  block_devices_for_pool E pool = Ret devices ->
  Forall (fun d => is_device_path d = true /\ is_field d = true) devices
  /\ (forall text, zpool_status E pool (-1) = Ret (Some text) ->
        length devices <= length (split NL text)).
Proof.
  unfold block_devices_for_pool. destruct (negb (isinstance_str pool)); [discriminate|].
  destruct (zpool_status E pool (-1)) as [[text|]| |]; simpl; try discriminate.
  - intros H; injection H as <-. split.
    + apply Forall_forall. intros d Hd.
      apply devices_of_status_In in Hd. destruct Hd as (l & _ & Hdl).
      apply device_line_path in Hdl. split; [exact Hdl | apply device_path_field, Hdl].
    + intros text' H'. injection H' as <-. rewrite devices_by_line.
      induction (split NL text) as [|l ls IH]; [simpl; lia|].
      cbn [flat_map]. rewrite length_app.
      pose proof (line_device_short (normalize_line l)). simpl. lia.
  - intros H; injection H as <-. split; [constructor | discriminate].
Qed.

Lemma block_devices_are_paths_witness :
  block_devices_for_pool demo (PyStr (lit "mixed"))
  = Ret [lit "/dev/sda1"; lit "/dev/sdb1"]
  /\ Forall (fun d => is_device_path d = true /\ is_field d = true)
            [lit "/dev/sda1"; lit "/dev/sdb1"].
Proof.
  split; [vm_compute; reflexivity|].
  apply (@block_devices_are_paths demo (PyStr (lit "mixed"))
           [lit "/dev/sda1"; lit "/dev/sdb1"]).
  vm_compute; reflexivity.
Defined.

Lemma spaced_no_newline (items : list (str * str)) tail :
  forallb (fun it => is_gap (fst it) && is_field (snd it)) items = true ->
  forallb blank tail = true ->
  no_newline (spaced items tail) = true.
Proof.
  intros Hitems Htail. induction items as [|[g w] items IH].
  - apply blank_no_newline, Htail.
  - cbn [forallb fst snd] in Hitems. apply andb_true_iff in Hitems.
    destruct Hitems as [Hgw Hitems]. apply andb_true_iff in Hgw.
    destruct Hgw as [Hg Hw]. cbn [spaced]. rewrite !no_newline_app.
    rewrite (blank_no_newline g (gap_blank g Hg)), (field_no_newline w Hw).
    rewrite (IH Hitems). reflexivity.
Qed.

Lemma fields_line_no_newline g0 f1 (items : list (str * str)) tail :
  forallb blank g0 = true -> is_field f1 = true ->
  forallb (fun it => is_gap (fst it) && is_field (snd it)) items = true ->
  forallb blank tail = true ->
  ~ In NL (g0 ++ f1 ++ spaced items tail).
Proof.
  intros Hg0 Hf1 Hitems Htail. apply no_newline_iff. rewrite !no_newline_app.
  rewrite (blank_no_newline g0 Hg0), (field_no_newline f1 Hf1).
  rewrite (spaced_no_newline items tail Hitems Htail). reflexivity.
Qed.

(** X9. A line of any number of fields, with any runs of tabs and spaces
    between them, before the first and after the last, is normalized to its
    fields one space apart. *)
Theorem normalize_status_fields (g0 f1 : str) (items : list (str * str)) (tail : str) :
  forallb blank g0 = true -> is_field f1 = true ->
  forallb (fun it => is_gap (fst it) && is_field (snd it)) items = true ->
  forallb blank tail = true ->
  normalize_status (g0 ++ f1 ++ spaced items tail)
  = f1 ++ flat_map (fun it => SPACE :: snd it) items.
Proof.
  intros Hg0 Hf1 Hitems Htail.
  pose proof (fields_line_no_newline g0 f1 items tail Hg0 Hf1 Hitems Htail) as Hnl.
  rewrite normalize_status_lines, (split_no_sep _ Hnl). cbn [List.map join].
  apply normalize_fields; assumption.
Qed.

Lemma normalize_status_fields_witness :
  normalize_status
    ([SPACE; SPACE] ++ lit "errors:"
       ++ spaced [([TAB; SPACE], lit "No"); ([SPACE; SPACE; SPACE], lit "known")]
            [TAB])
  = lit "errors: No known".
Proof.
  apply (@normalize_status_fields [SPACE; SPACE] (lit "errors:")
           [([TAB; SPACE], lit "No"); ([SPACE; SPACE; SPACE], lit "known")] [TAB]);
    reflexivity.
Defined.

Lemma field_no_space w : is_field w = true -> ~ In SPACE w.
Proof.
  intros Hw. apply is_field_iff in Hw. destruct Hw as [_ Hw].
  apply (forallb_not_In (fun c => negb (isspace c))); [exact Hw | reflexivity].
Qed.

Lemma device_path_no_space d : is_device_path d = true -> ~ In SPACE d.
Proof. intros H. apply field_no_space, device_path_field, H. Qed.

(** X10. The first field decides: a line whose first field is not a
    device path yields no device, whatever follows it. *)
Theorem first_field_not_a_device (g0 f1 : str) (items : list (str * str)) (tail : str) :
  forallb blank g0 = true -> is_field f1 = true ->
  forallb (fun it => is_gap (fst it) && is_field (snd it)) items = true ->
  forallb blank tail = true ->
  is_device_path f1 = false ->
  devices_of_status (g0 ++ f1 ++ spaced items tail) = [].
Proof.
  intros Hg0 Hf1 Hitems Htail Hpath.
  pose proof (fields_line_no_newline g0 f1 items tail Hg0 Hf1 Hitems Htail) as Hnl.
  rewrite (devices_of_line _ Hnl).
  apply line_device_nil_iff; [apply normalize_line_no_NL, Hnl|].
  rewrite (normalize_fields g0 f1 items tail Hg0 Hf1 Hitems Htail).
  intros d (st & n1 & n2 & n3 & Heq & Hd & _).
  pose proof (field_no_space f1 Hf1) as Hs1.
  pose proof (device_path_no_space d Hd) as Hsd.
  destruct items as [|[g w] items'].
  - cbn [flat_map] in Heq. rewrite app_nil_r in Heq. apply Hs1.
    rewrite Heq. apply in_or_app. right. left. reflexivity.
  - cbn [flat_map snd] in Heq.
    change ((SPACE :: w) ++ flat_map (fun it : str * str => SPACE :: snd it) items')
      with (SPACE :: (w ++ flat_map (fun it : str * str => SPACE :: snd it) items'))
      in Heq.
    apply (app_sep_unique SPACE) in Heq; [|assumption|assumption].
    subst f1. congruence.
Qed.

Lemma first_field_not_a_device_witness :
  devices_of_status
    ([TAB] ++ lit "/dev/disk/by-path/pci-0000:00:1f.2-ata-1"
       ++ spaced [([SPACE; SPACE], lit "ONLINE"); ([SPACE], lit "0");
                  ([SPACE], lit "0"); ([SPACE], lit "0")] [])
  = [].
Proof.
  apply (@first_field_not_a_device [TAB]
           (lit "/dev/disk/by-path/pci-0000:00:1f.2-ata-1")
           [([SPACE; SPACE], lit "ONLINE"); ([SPACE], lit "0");
            ([SPACE], lit "0"); ([SPACE], lit "0")] []);
    reflexivity.
Defined.

Lemma count_space_free (w : str) :
  ~ In SPACE w -> count_occ N.eq_dec w SPACE = 0.
Proof. apply count_occ_not_In. Qed.

Lemma count_space_fields (items : list (str * str)) :
  forallb (fun it => is_gap (fst it) && is_field (snd it)) items = true ->
  count_occ N.eq_dec (flat_map (fun it => SPACE :: snd it) items) SPACE
  = length items.
Proof.
  induction items as [|[g w] items IH]; intros H; [reflexivity|].
  cbn [forallb fst snd] in H. apply andb_true_iff in H. destruct H as [Hgw H].
  apply andb_true_iff in Hgw. destruct Hgw as [_ Hw].
  cbn [flat_map snd length]. rewrite count_occ_app.
  rewrite (count_occ_cons_eq N.eq_dec w (eq_refl SPACE)).
  rewrite (count_space_free w (field_no_space w Hw)), (IH H). lia.
Qed.

Lemma device_line_spaces l d : device_line l d -> count_occ N.eq_dec l SPACE = 4.
Proof.
  intros (st & n1 & n2 & n3 & -> & Hd & Hst & Hn1 & Hn2 & Hn3).
  pose proof (count_space_free d (device_path_no_space d Hd)) as Cd.
  pose proof (count_space_free st (field_no_space st (state_field st Hst))) as Cst.
  pose proof (count_space_free n1 (field_no_space n1 (number_field n1 Hn1))) as C1.
  pose proof (count_space_free n2 (field_no_space n2 (number_field n2 Hn2))) as C2.
  pose proof (count_space_free n3 (field_no_space n3 (number_field n3 Hn3))) as C3.
  repeat (rewrite count_occ_app || rewrite (count_occ_cons_eq N.eq_dec _ (eq_refl SPACE))).
  rewrite Cd, Cst, C1, C2, C3. reflexivity.
Qed.

(** X11. A device line has five fields: a line with fewer or more
    fields yields no device, even when it starts like a device line (as a
    line with a remark after the counters does). *)
Theorem not_five_fields (g0 f1 : str) (items : list (str * str)) (tail : str) :
  forallb blank g0 = true -> is_field f1 = true ->
  forallb (fun it => is_gap (fst it) && is_field (snd it)) items = true ->
  forallb blank tail = true ->
  Nat.eqb (length items) 4 = false ->
  devices_of_status (g0 ++ f1 ++ spaced items tail) = [].
Proof.
  intros Hg0 Hf1 Hitems Htail Hlen.
  pose proof (fields_line_no_newline g0 f1 items tail Hg0 Hf1 Hitems Htail) as Hnl.
  rewrite (devices_of_line _ Hnl).
  apply line_device_nil_iff; [apply normalize_line_no_NL, Hnl|].
  rewrite (normalize_fields g0 f1 items tail Hg0 Hf1 Hitems Htail).
  intros d Hd. apply device_line_spaces in Hd.
  rewrite count_occ_app, (count_space_free f1 (field_no_space f1 Hf1)) in Hd.
  rewrite (count_space_fields items Hitems) in Hd. simpl in Hd.
  apply Nat.eqb_neq in Hlen. contradiction.
Qed.

Lemma not_five_fields_witness :
  devices_of_status
    ([TAB] ++ lit "/dev/sdb1"
       ++ spaced [([SPACE; SPACE], lit "ONLINE"); ([SPACE], lit "0");
                  ([SPACE], lit "0"); ([SPACE], lit "0");
                  ([SPACE; SPACE], lit "(resilvering)")] [])
  = [].
Proof.
  apply (@not_five_fields [TAB] (lit "/dev/sdb1")
           [([SPACE; SPACE], lit "ONLINE"); ([SPACE], lit "0");
            ([SPACE], lit "0"); ([SPACE], lit "0");
            ([SPACE; SPACE], lit "(resilvering)")] []);
    reflexivity.
Defined.

(** ** How the pool classifier fails and how it composes *)

Lemma comprehension_Raise {A B} (f : A -> outcome B) (l : list A) e :
  comprehension f l = Raise e ->
  exists before a after,
    l = before ++ a :: after
    /\ Forall (fun a' => exists b, f a' = Ret b) before
    /\ f a = Raise e.
Proof.
  induction l as [|x l IH]; simpl; [discriminate|].
  destruct (f x) as [b| |] eqn:Hx; simpl; try discriminate.
  - destruct (comprehension f l) as [bs| |] eqn:Hl; simpl; try discriminate.
    intros H; injection H as <-.
    destruct (IH eq_refl) as (before & a & after & -> & Hb & Ha).
    exists (x :: before), a, after. split; [reflexivity|].
    split; [constructor; [exists b; exact Hx | exact Hb] | exact Ha].
  - intros H; injection H as <-.
    exists [], x, l. split; [reflexivity|]. split; [constructor | exact Hx].
Qed.

(** X12. For a pool name the classifier raises what the status query
    raised (one of its three exceptions, and then no disk is classified), or
    what the first base disk that fails to classify raised, after every base
    disk visited before it was classified; it adds no exception of its
    own. *)
Theorem classifier_error (E : Env) (fuel : nat) (name : str) (e : error) :
  zpool_is_pure_solid_state E fuel (PyStr name) = Raise e ->
  (zpool_status E (PyStr name) (-1) = Raise e
   /\ (e = DidNotReturnSuccessfully name \/ e = UnicodeDecodeError
       \/ e = DidNotReturnInTime (-1) name))
  \/ (exists devices before d after,
        block_devices_for_pool E (PyStr name) = Ret devices
        /\ base_disks E devices = before ++ d :: after
        /\ Forall (fun d' => exists b, is_rotational E fuel d' = Ret b) before
        /\ is_rotational E fuel d = Raise e
        /\ exists f, e = CouldNotFindFile f \/ e = UnknownValue f).
Proof.
  unfold zpool_is_pure_solid_state, block_devices_for_pool.
  cbn [isinstance_str negb].
  destruct (zpool_status E (PyStr name) (-1)) as [status| |] eqn:Hs;
    cbn [bind]; try discriminate.
  - intros H. right.
    exists (match status with Some t => devices_of_status t | None => [] end).
    assert (Hall : all_solid_state E fuel
                     (match status with Some t => devices_of_status t | None => [] end)
                   = Raise e) by (destruct status; exact H).
    rewrite all_solid_state_eq in Hall.
    destruct (comprehension _ _) as [bs| |] eqn:Hc; cbn [bind] in Hall;
      try discriminate.
    injection Hall as ->.
    apply comprehension_Raise in Hc. destruct Hc as (before & d & after & Hl & Hb & Hd).
    exists before, d, after. split; [destruct status; reflexivity|].
    split; [exact Hl|]. split; [exact Hb|]. split; [exact Hd|].
    apply is_rotational_error in Hd. destruct Hd as (n & _ & _ & [[-> _]|[-> _]]);
      eexists; [left | right]; reflexivity.
  - intros H; injection H as <-. left. split; [reflexivity|].
    unfold zpool_status in Hs. change (0 <? -1)%Z with false in Hs. cbv iota in Hs.
    destruct (popen E _ None) as [|rc out].
    + injection Hs as <-. right; right; reflexivity.
    + destruct (negb (rc =? 0)%Z).
      * injection Hs as <-. left; reflexivity.
      * destruct out; [discriminate|]. injection Hs as <-. right; left; reflexivity.
Qed.

Lemma classifier_error_witness :
  zpool_is_pure_solid_state odd 2 (PyStr (lit "bad"))
  = Raise (UnknownValue (lit "/sys/block/sdy/queue/rotational"))
  /\ ((zpool_status odd (PyStr (lit "bad")) (-1)
       = Raise (UnknownValue (lit "/sys/block/sdy/queue/rotational"))
       /\ (UnknownValue (lit "/sys/block/sdy/queue/rotational")
           = DidNotReturnSuccessfully (lit "bad")
           \/ UnknownValue (lit "/sys/block/sdy/queue/rotational") = UnicodeDecodeError
           \/ UnknownValue (lit "/sys/block/sdy/queue/rotational")
              = DidNotReturnInTime (-1) (lit "bad")))
      \/ (exists devices before d after,
            block_devices_for_pool odd (PyStr (lit "bad")) = Ret devices
            /\ base_disks odd devices = before ++ d :: after
            /\ Forall (fun d' => exists b, is_rotational odd 2 d' = Ret b) before
            /\ is_rotational odd 2 d
               = Raise (UnknownValue (lit "/sys/block/sdy/queue/rotational"))
            /\ exists f,
                 UnknownValue (lit "/sys/block/sdy/queue/rotational")
                 = CouldNotFindFile f
                 \/ UnknownValue (lit "/sys/block/sdy/queue/rotational")
                    = UnknownValue f)).
Proof.
  split; [vm_compute; reflexivity|].
  apply (@classifier_error odd 2 (lit "bad")). vm_compute; reflexivity.
Defined.

Lemma all_in_In l1 l2 d : all_in l1 l2 = true -> In d l1 -> In d l2.
Proof.
  unfold all_in. rewrite forallb_forall. intros H Hd.
  specialize (H d Hd). apply existsb_exists in H.
  destruct H as (d' & Hin & Heq). apply str_eqb_eq in Heq. subst d'. exact Hin.
Qed.

(** X13. Fewer devices never spoil the answer: when a device list is all
    solid state, so is every list of devices taken from it; and no list that
    holds the devices of a list with a rotational disk is all solid
    state. *)
Theorem all_solid_state_subset (E : Env) (fuel : nat) (devices1 devices2 : list str) :
  all_in devices1 devices2 = true ->
  (all_solid_state E fuel devices2 = Ret true ->
   all_solid_state E fuel devices1 = Ret true)
  /\ (all_solid_state E fuel devices1 = Ret false ->
      all_solid_state E fuel devices2 <> Ret true).
Proof.
  intros Hsub.
  assert (Hdown : all_solid_state E fuel devices2 = Ret true ->
                  all_solid_state E fuel devices1 = Ret true).
  { rewrite !all_solid_state_Ret. intros (rot & Hrot & Hb).
    assert (Hin : forall d, In d (List.map (base_disk_for_block_device E) devices1) ->
                            In d (List.map (base_disk_for_block_device E) devices2)).
    { intros d Hd. apply in_map_iff in Hd. destruct Hd as (x & <- & Hx).
      apply in_map, (all_in_In _ _ _ Hsub Hx). }
    exists rot. split; [intros d Hd; apply Hrot, Hin, Hd|].
    symmetry in Hb. rewrite forallb_forall in Hb.
    symmetry. apply forallb_forall. intros d Hd. apply Hb, Hin, Hd. }
  split; [exact Hdown|].
  intros H1 H2. rewrite (Hdown H2) in H1. discriminate.
Qed.

Lemma all_solid_state_subset_witness :
  all_in [lit "/dev/sdc1"] [lit "/dev/sda1"; lit "/dev/sdc1"] = true
  /\ (all_solid_state demo 2 [lit "/dev/sda1"; lit "/dev/sdc1"] = Ret true ->
      all_solid_state demo 2 [lit "/dev/sdc1"] = Ret true).
Proof.
  split; [reflexivity|].
  apply (@all_solid_state_subset demo 2 [lit "/dev/sdc1"]
           [lit "/dev/sda1"; lit "/dev/sdc1"]). reflexivity.
Defined.

(** ** The command line *)

(** X14. The exit code tells whether the check was carried out, not what
    it found: it is 0 exactly when the classifier returned an answer, and
    then the script prints the answer line and nothing else; otherwise it is
    1, nothing is printed on the standard output, and the message of the
    exception goes to the error stream. *)
Theorem main_body_contract (E : Env) (fuel : nat) (pool : str) :
  (exit_code (main_body E fuel pool) = 0%Z
   \/ exit_code (main_body E fuel pool) = 1%Z)
  /\ (forall b,
        zpool_is_pure_solid_state E fuel (PyStr pool) = Ret b <->
        main_body E fuel pool = Run 0 (answer_line b) (Some []))
  /\ (exit_code (main_body E fuel pool) = 0%Z <->
      exists b, zpool_is_pure_solid_state E fuel (PyStr pool) = Ret b)
  /\ (exit_code (main_body E fuel pool) = 1%Z -> stdout (main_body E fuel pool) = [])
  /\ (forall e m,
        zpool_is_pure_solid_state E fuel (PyStr pool) = Raise e ->
        message e = Some m ->
        main_body E fuel pool = Run 1 [] (Some (m ++ [NL]))).
Proof.
  unfold main_body.
  destruct (zpool_is_pure_solid_state E fuel (PyStr pool)) as [b| e |];
    cbn [exit_code stdout].
  - split; [left; reflexivity|]. split; [|split; [|split]].
    + intros b'. split.
      * intros H; injection H as <-. reflexivity.
      * intros H. destruct b, b'; try reflexivity;
          vm_compute in H; discriminate H.
    + split; [intros _; exists b; reflexivity | reflexivity].
    + discriminate.
    + discriminate.
  - split; [right; reflexivity|]. split; [|split; [|split]].
    + intros b. split; discriminate.
    + split; [discriminate | intros [b H]; discriminate].
    + reflexivity.
    + intros e' m H Hm. injection H as <-. rewrite Hm. reflexivity.
  - split; [right; reflexivity|]. split; [|split; [|split]].
    + intros b. split; discriminate.
    + split; [discriminate | intros [b H]; discriminate].
    + reflexivity.
    + discriminate.
Qed.

Lemma forallb_pointwise {A} (f g : A -> bool) (l : list A) :
  (forall a, f a = g a) -> forallb f l = forallb g l.
Proof.
  intros H. induction l as [|a l IH]; simpl; [|rewrite H, IH]; reflexivity.
Qed.

Lemma is_rotational_flag E fuel x b :
  flag E x = Some b -> is_rotational E (S fuel) x = Ret b.
Proof.
  unfold flag. destruct (file E (rotational_file x)) as [text|] eqn:Hf; [|discriminate].
  rewrite (is_rotational_found E fuel x Hf).
  destruct (Str.eqb (take1 text) (lit "1")); [intros H; injection H as <-; reflexivity|].
  destruct (Str.eqb (take1 text) (lit "0")); [|discriminate].
  intros H; injection H as <-; reflexivity.
Qed.

(** X15. From the status text to the printed line: when the query exits
    with 0 and the flag file of every base disk of the parsed devices exists
    and starts with ['1'] or ['0'], the run exits with 0 and prints [True] if
    no flag is ['1'] and [False] otherwise; one frame for each classification
    is enough. *)
Theorem main_body_answer (E : Env) (fuel : nat) (pool text : str) :
  popen E [lit "zpool"; lit "status"; lit "-P"; pool] None = Exited 0 (Some text) ->
  forallb (fun d => match flag E (base_disk_for_block_device E d) with
                    | Some _ => true
                    | None => false
                    end) (devices_of_status text) = true ->
  main_body E (S fuel) pool
  = Run 0 (answer_line
             (forallb (fun d => match flag E (base_disk_for_block_device E d) with
                                | Some true => false
                                | _ => true
                                end) (devices_of_status text)))
        (Some []).
Proof.
  intros Hp Hflags.
  apply (proj1 (proj2 (main_body_contract E (S fuel) pool))).
  unfold zpool_is_pure_solid_state, block_devices_for_pool, zpool_status. simpl.
  change (0 <? -1)%Z with false. cbv iota. rewrite Hp. simpl.
  apply all_solid_state_Ret.
  exists (fun d => match flag E d with Some true => true | _ => false end).
  rewrite forallb_forall in Hflags. split.
  - intros d Hd. apply in_map_iff in Hd. destruct Hd as (x & <- & Hx).
    specialize (Hflags x Hx).
    destruct (flag E (base_disk_for_block_device E x)) as [b|] eqn:Hf; [|discriminate].
    rewrite (is_rotational_flag E fuel _ Hf). destruct b; reflexivity.
  - rewrite forallb_of_map. apply forallb_pointwise. intros d.
    destruct (flag E (base_disk_for_block_device E d)) as [[|]|]; reflexivity.
Qed.

Lemma main_body_answer_witness :
  main_body demo 1 (lit "mixed") = Run 0 (answer_line false) (Some []).
Proof.
  apply (@main_body_answer demo 0 (lit "mixed")
           (status_of (lit "mixed") (lit "/dev/sda1") (lit "/dev/sdb1")));
    vm_compute; reflexivity.
Defined.
